(** * Smart CA: the transaction extraction engine of [backend/ml/ocr_engine.py]

    A shallow embedding of [EnhancedOCREngine]: the keyword tables, the
    regular expressions, amount cleaning, the three-strategy amount
    resolver, the date, description and type resolvers, and
    [extract_transactions], followed by the properties of the
    specification that concern them.  Then [extract_text] and the
    categoriser of [backend/app.py], which receives the extracted
    transactions, with further properties read off the code.

    Modelling conventions.
    - A Python [str] is a list of code points ([char := N]).
    - [str.lower] is exact on the ASCII range and on the two code points
      outside it whose lower case holds an ASCII letter: U+212A gives
      "k", and U+0130 gives "i" followed by U+0307.  Python lower-cases
      every other code point to code points outside ASCII; the model
      leaves it as it is, which a test for an ASCII keyword cannot tell.
    - The classes [\d] and [\w], [str.isdigit] and the case folding of
      [re.IGNORECASE] are taken on the ASCII range; a property that
      depends on them for arbitrary text is stated for ASCII text.
      White space is the full set recognised by [str.isspace].
    - A Python [float] obtained from [float(cleaned)] is modelled by the
      exact decimal value of the digit string (a mantissa and a scale).
      Binary rounding and overflow are not modelled: the model is exact
      for values of at most fifteen significant digits, which a float
      holds and prints back unchanged.
    - [strftime('%Y-%m-%d')] writes the year without padding, as the C
      library of Linux does: "100-03-15" for the year 100.
    - The recognition service (Tesseract) and the image library are
      outside the engine: their results are inputs of the model. *)

From Stdlib Require Import String Ascii List NArith Bool Arith Lia.
Import ListNotations.

Set Implicit Arguments.
Set Warnings "-abstract-large-number".

(** ** Text *)

Definition char := N.
Bind Scope N_scope with char.
Definition text := list char.

Definition str (s : string) : text :=
  map N_of_ascii (list_ascii_of_string s).

Definition ceq (a b : char) : bool := N.eqb a b.

Definition between (lo hi c : N) : bool := (N.leb lo c && N.leb c hi)%bool.

Definition nl : char := 10%N.
Definition sp : char := 32%N.
Definition rupee : char := 8377%N.

(** The lower and upper case of an ASCII letter. *)
Definition lower (c : char) : char :=
  if between 65 90 c then c + 32 else c.
Definition upper (c : char) : char :=
  if between 97 122 c then c - 32 else c.

(** [c.lower()] for one code point.  Outside ASCII, the Kelvin sign
    U+212A gives "k" and U+0130 gives "i" followed by the combining dot
    U+0307; every other code point is lower-cased to code points outside
    ASCII and is left as it is. *)
Definition lower_str (c : char) : text :=
  if ceq c 8490 then [107%N]
  else if ceq c 304 then [105%N; 775%N]
  else [lower c].

(** [s.lower()] *)
Definition lower_text (s : text) : text := flat_map lower_str s.

(** [str.isspace] on one code point; also the class [\s]. *)
Definition is_space (c : char) : bool :=
  between 9 13 c || between 28 32 c || ceq c 133 || ceq c 160 ||
  ceq c 5760 || between 8192 8202 c || ceq c 8232 || ceq c 8233 ||
  ceq c 8239 || ceq c 8287 || ceq c 12288.

Definition is_digit (c : char) : bool := between 48 57 c.
Definition is_alpha (c : char) : bool := between 65 90 c || between 97 122 c.
Definition is_word (c : char) : bool := is_alpha c || is_digit c || ceq c 95.

Fixpoint text_eqb (a b : text) : bool :=
  match a, b with
  | [], [] => true
  | x :: a', y :: b' => ceq x y && text_eqb a' b'
  | _, _ => false
  end.

Fixpoint starts_with (p s : text) : bool :=
  match p, s with
  | [], _ => true
  | x :: p', y :: s' => ceq x y && starts_with p' s'
  | _ :: _, [] => false
  end.

(** [needle in hay]. *)
Fixpoint contains (needle hay : text) : bool :=
  starts_with needle hay ||
  match hay with
  | [] => false
  | _ :: hay' => contains needle hay'
  end.

(** [any(keyword in s for keyword in keywords)]. *)
Definition any_in (keywords : list text) (s : text) : bool :=
  existsb (fun k => contains k s) keywords.

(** [s.split(sep)] for a one-character separator. *)
Fixpoint split_on (sep : char) (s : text) : list text :=
  match s with
  | [] => [[]]
  | c :: t =>
      if ceq c sep then [] :: split_on sep t
      else match split_on sep t with
           | [] => [[c]]
           | w :: ws => (c :: w) :: ws
           end
  end.

Fixpoint join (sep : text) (parts : list text) : text :=
  match parts with
  | [] => []
  | [p] => p
  | p :: rest => p ++ sep ++ join sep rest
  end.

(** The text whose lines are [ls]. *)
Definition unlines (ls : list text) : text := join [nl] ls.

Fixpoint lstrip (s : text) : text :=
  match s with
  | c :: t => if is_space c then lstrip t else s
  | [] => []
  end.

(** [s.strip()]. *)
Definition strip (s : text) : text := rev (lstrip (rev (lstrip s))).

(** [s.split()]: the maximal runs of characters that are not white space;
    [cur] is the run being read, reversed. *)
Fixpoint split_ws_aux (cur : text) (s : text) : list text :=
  match s with
  | [] => match cur with [] => [] | _ => [rev cur] end
  | c :: t =>
      if is_space c
      then match cur with
           | [] => split_ws_aux [] t
           | _ => rev cur :: split_ws_aux [] t
           end
      else split_ws_aux (c :: cur) t
  end.
Definition split_ws (s : text) : list text := split_ws_aux [] s.

(** [re.sub(r'\s+', ' ', s)]: every maximal run of white space becomes one
    space; [in_run] tells that the previous character was white space. *)
Fixpoint squeeze_ws_aux (in_run : bool) (s : text) : text :=
  match s with
  | [] => []
  | c :: t =>
      if is_space c
      then if in_run then squeeze_ws_aux true t else sp :: squeeze_ws_aux true t
      else c :: squeeze_ws_aux false t
  end.
Definition squeeze_ws (s : text) : text := squeeze_ws_aux false s.

(** ** Regular expressions

    The fragment of Python's [re] that the engine's patterns use, with
    the backtracking order of [re]: alternatives left to right, greedy
    repetition.  Every repeated sub-pattern of this file consumes at
    least one character, and the matcher asks for that progress. *)

Inductive item :=
| One (c : char)
| Range (lo hi : char)
| Digits                      (* \d *)
| Spaces.                     (* \s *)

Inductive regex :=
| Eps
| Lit (c : char)
| Set_ (neg : bool) (items : list item)
| Seq (a b : regex)
| Alt (a b : regex)
| Rep (lo : nat) (hi : option nat) (a : regex)
| Grp (n : nat) (a : regex)
| Bow                         (* \b *)
| Bol                         (* ^ *)
| Eol.                        (* $ *)

Record flags := { IGNORECASE : bool; MULTILINE : bool }.

(** A position in the subject: the characters before it (nearest first),
    the characters after it, and the groups captured so far. *)
Record mstate := { pre : text; rest : text; caps : list (nat * text) }.

Definition item_in (c : char) (it : item) : bool :=
  match it with
  | One x => ceq c x
  | Range lo hi => between lo hi c
  | Digits => is_digit c
  | Spaces => is_space c
  end.

Definition set_in (items : list item) (c : char) : bool :=
  existsb (item_in c) items.

Definition lit_match (fl : flags) (p c : char) : bool :=
  if IGNORECASE fl then ceq (lower c) (lower p) else ceq c p.

Definition set_match (fl : flags) (neg : bool) (items : list item) (c : char)
  : bool :=
  xorb neg
    (if IGNORECASE fl
     then set_in items c || set_in items (lower c) || set_in items (upper c)
     else set_in items c).

Definition advance (st : mstate) (c : char) (t : text) : mstate :=
  {| pre := c :: pre st; rest := t; caps := caps st |}.

(** The text between two positions of one subject. *)
Definition matched (st st1 : mstate) : text :=
  rev (firstn (length (pre st1) - length (pre st)) (pre st1)).

Definition set_cap (n : nat) (g : text) (st : mstate) : mstate :=
  {| pre := pre st; rest := rest st; caps := (n, g) :: caps st |}.

Fixpoint group (n : nat) (cs : list (nat * text)) : option text :=
  match cs with
  | [] => None
  | (m, g) :: cs' => if Nat.eqb m n then Some g else group n cs'
  end.

Definition word_before (st : mstate) : bool :=
  match pre st with c :: _ => is_word c | [] => false end.
Definition word_after (st : mstate) : bool :=
  match rest st with c :: _ => is_word c | [] => false end.

Definition at_bol (fl : flags) (st : mstate) : bool :=
  match pre st with
  | [] => true
  | c :: _ => MULTILINE fl && ceq c nl
  end.

Definition at_eol (fl : flags) (st : mstate) : bool :=
  match rest st with
  | [] => true
  | c :: t => ceq c nl && (MULTILINE fl || match t with [] => true | _ => false end)
  end.

Section Matcher.
Variable fl : flags.
Variable A : Type.

(** Greedy repetition of [body], between [lo] and [hi] times: one more
    round is tried first, and the rest of the pattern ([k]) only when
    that fails.  A round has to consume a character; [fuel] bounds the
    rounds by the characters left. *)
Fixpoint rep_loop (body : mstate -> (mstate -> option A) -> option A)
  (k : mstate -> option A) (fuel lo : nat) (hi : option nat) (st : mstate)
  {struct fuel} : option A :=
  match fuel with
  | O => None
  | S fuel' =>
      let stop := match lo with O => k st | S _ => None end in
      match hi with
      | Some O => stop
      | _ =>
          match
            body st
              (fun st1 =>
                 if length (rest st1) <? length (rest st)
                 then rep_loop body k fuel' (Nat.pred lo)
                                (option_map Nat.pred hi) st1
                 else None)
          with
          | Some x => Some x
          | None => stop
          end
      end
  end.

(** [run r st k]: match [r] at [st], then continue with [k]; [None] makes
    the matcher backtrack. *)
Fixpoint run (r : regex) (st : mstate) (k : mstate -> option A) {struct r}
  : option A :=
  match r with
  | Eps => k st
  | Lit p =>
      match rest st with
      | c :: t => if lit_match fl p c then k (advance st c t) else None
      | [] => None
      end
  | Set_ neg items =>
      match rest st with
      | c :: t => if set_match fl neg items c then k (advance st c t) else None
      | [] => None
      end
  | Seq a b => run a st (fun st1 => run b st1 k)
  | Alt a b =>
      match run a st k with
      | Some x => Some x
      | None => run b st k
      end
  | Rep lo hi a => rep_loop (run a) k (S (length (rest st))) lo hi st
  | Grp n a => run a st (fun st1 => k (set_cap n (matched st st1) st1))
  | Bow => if xorb (word_before st) (word_after st) then k st else None
  | Bol => if at_bol fl st then k st else None
  | Eol => if at_eol fl st then k st else None
  end.

End Matcher.

(** The leftmost match at or after the position [(before, after)]: the
    positions where it starts and ends. *)
Fixpoint scan (fl : flags) (r : regex) (before after : text)
  : option (mstate * mstate) :=
  let st := {| pre := before; rest := after; caps := [] |} in
  match run fl r st (fun st1 => Some st1) with
  | Some st1 => Some (st, st1)
  | None =>
      match after with
      | [] => None
      | c :: t => scan fl r (c :: before) t
      end
  end.

(** [re.search(r, s)]. *)
Definition re_search (fl : flags) (r : regex) (s : text)
  : option (mstate * mstate) :=
  scan fl r [] s.

(** [re.match(r, s)]. *)
Definition re_match (fl : flags) (r : regex) (s : text) : option mstate :=
  run fl r {| pre := []; rest := s; caps := [] |} (fun st1 => Some st1).

(** [m.group(0)] and [m.group(n)]. *)
Definition group0 (m : mstate * mstate) : text := matched (fst m) (snd m).
Definition group_or_empty (n : nat) (m : mstate * mstate) : text :=
  match group n (caps (snd m)) with Some g => g | None => [] end.

(** [re.findall(r, s)] for a pattern with exactly one group: group 1 of
    the successive non-overlapping matches, left to right.  The patterns
    it is used with match no empty text. *)
Fixpoint findall_from (fuel : nat) (fl : flags) (r : regex)
  (before after : text) : list text :=
  match fuel with
  | O => []
  | S fuel' =>
      match scan fl r before after with
      | None => []
      | Some (st, st1) =>
          group_or_empty 1 (st, st1) ::
          (if length (rest st1) <? length (rest st)
           then findall_from fuel' fl r (pre st1) (rest st1)
           else match rest st1 with
                | [] => []
                | c :: t => findall_from fuel' fl r (c :: pre st1) t
                end)
      end
  end.

Definition re_findall (fl : flags) (r : regex) (s : text) : list text :=
  findall_from (S (length s)) fl r [] s.

(** Pattern syntax. *)
Definition lits (s : string) : regex :=
  fold_right (fun c r => Seq (Lit c) r) Eps (str s).
Fixpoint seqs (rs : list regex) : regex :=
  match rs with
  | [] => Eps
  | [r] => r
  | r :: rs' => Seq r (seqs rs')
  end.
Fixpoint alts (rs : list regex) : regex :=
  match rs with
  | [] => Set_ false []
  | [r] => r
  | r :: rs' => Alt r (alts rs')
  end.
Definition opt (r : regex) : regex := Rep 0 (Some 1) r.
Definition star (r : regex) : regex := Rep 0 None r.
Definition plus (r : regex) : regex := Rep 1 None r.
Definition times (lo hi : nat) (r : regex) : regex := Rep lo (Some hi) r.
Definition at_least (lo : nat) (r : regex) : regex := Rep lo None r.
Definition d : regex := Set_ false [Digits].
Definition s_ : regex := Set_ false [Spaces].
Definition chr (s : string) : char :=
  match str s with c :: _ => c | [] => 0 end.

Definition plain : flags := {| IGNORECASE := false; MULTILINE := false |}.
Definition icase : flags := {| IGNORECASE := true; MULTILINE := false |}.
Definition icase_multiline : flags := {| IGNORECASE := true; MULTILINE := true |}.

(** ** Exceptions

    [_clean_amount] catches [ValueError] and [AttributeError] only; an
    [IndexError] of [parts[-1]] would leave it, and nothing above it
    catches one. *)

Inductive exn := IndexError.

Inductive outcome (A : Type) :=
| Ret (a : A)
| Raise (e : exn).
Arguments Ret {A} a.
Arguments Raise {A} e.

Definition bind {A B : Type} (m : outcome A) (f : A -> outcome B) : outcome B :=
  match m with
  | Ret a => f a
  | Raise e => Raise e
  end.

Notation "x <- m ;; f" := (bind m (fun x => f))
  (at level 61, m at next level, right associativity).

(** ** The tables of [EnhancedOCREngine.__init__] *)

Definition total_keywords : list text := map str
  [ "total"; "grand total"; "net amount"; "amount due"; "amount payable";
    "bill amount"; "final amount"; "total amount"; "total payable";
    "you paid"; "paid amount"; "payment"; "balance"; "net total";
    "amount paid"; "total paid"; "invoice total"; "order total";
    "subtotal"; "sub total"; "charged"; "debit"; "credit";
    "transferred"; "received"; "deposited"; "withdrawn" ]%string.

Definition ignore_keywords : list text := map str
  [ "cgst"; "sgst"; "igst"; "gst"; "tax"; "vat"; "service charge";
    "delivery charge"; "discount"; "offer"; "saved"; "savings";
    "tip"; "cashback"; "wallet"; "points"; "rewards";
    "packing charge"; "convenience fee"; "handling charge";
    "item"; "qty"; "quantity"; "price"; "rate"; "mrp";
    "phone"; "mobile"; "email"; "address"; "pincode"; "gstin" ]%string.

Definition month_abbr : regex := alts (map lits
  [ "Jan"; "Feb"; "Mar"; "Apr"; "May"; "Jun";
    "Jul"; "Aug"; "Sep"; "Oct"; "Nov"; "Dec" ]%string).

Definition slash_or_dash : regex := Set_ false [One (chr "/"); One (chr "-")].
Definition a_to_z : regex := Set_ false [Range (chr "a") (chr "z")].

Definition date_patterns : list regex :=
  [ (* \d{1,2}[/-]\d{1,2}[/-]\d{2,4} *)
    seqs [times 1 2 d; slash_or_dash; times 1 2 d; slash_or_dash; times 2 4 d];
    (* \d{4}[/-]\d{1,2}[/-]\d{1,2} *)
    seqs [times 4 4 d; slash_or_dash; times 1 2 d; slash_or_dash; times 1 2 d];
    (* \d{1,2}\s+(?:Jan|...|Dec)[a-z]*\s+\d{2,4} *)
    seqs [times 1 2 d; plus s_; month_abbr; star a_to_z; plus s_; times 2 4 d];
    (* (?:Jan|...|Dec)[a-z]*\s+\d{1,2},?\s+\d{4} *)
    seqs [month_abbr; star a_to_z; plus s_; times 1 2 d; opt (Lit (chr ","));
          plus s_; times 4 4 d] ].

(** [\d{1,3}(?:,\d{3})*(?:\.\d{2})?] *)
Definition grouped_number : regex :=
  seqs [times 1 3 d; star (Seq (Lit (chr ",")) (times 3 3 d));
        opt (Seq (Lit (chr ".")) (times 2 2 d))].

(** [Rs\.?] and [rs\.?] *)
Definition Rs_dot : regex := Seq (lits "Rs") (opt (Lit (chr "."))).
Definition rs_dot : regex := Seq (lits "rs") (opt (Lit (chr "."))).

Definition amount_patterns : list regex :=
  [ (* (?:Rs\.?|₹|INR|rs\.?)\s*(\d{1,3}(?:,\d{3})*(?:\.\d{2})?) *)
    seqs [alts [Rs_dot; Lit rupee; lits "INR"; rs_dot]; star s_;
          Grp 1 grouped_number];
    (* (\d{1,3}(?:,\d{3})*(?:\.\d{2})?)\s*(?:Rs\.?|₹|INR) *)
    seqs [Grp 1 grouped_number; star s_; alts [Rs_dot; Lit rupee; lits "INR"]];
    (* \b(\d{1,3}(?:,\d{3})+\.\d{2})\b *)
    seqs [Bow;
          Grp 1 (seqs [times 1 3 d; plus (Seq (Lit (chr ",")) (times 3 3 d));
                       Lit (chr "."); times 2 2 d]);
          Bow];
    (* \b(\d{4,})\b *)
    seqs [Bow; Grp 1 (at_least 4 d); Bow] ].

(** The tail shared by the three bank patterns:
    [\s*:?\s*(?:Rs\.?|₹)?\s*(\d{1,3}(?:,\d{3})*(?:\.\d{2})?)] *)
Definition bank_tail : list regex :=
  [ star s_; opt (Lit (chr ":")); star s_; opt (Alt Rs_dot (Lit rupee));
    star s_; Grp 1 grouped_number ].

Definition bank_patterns : list (text * regex) :=
  [ (str "credit",
     seqs (alts (map lits ["cr"; "credit"; "credited"; "deposit"; "received"]%string)
           :: bank_tail));
    (str "debit",
     seqs (alts (map lits ["dr"; "debit"; "debited"; "withdraw"; "withdrawn"; "paid"]%string)
           :: bank_tail));
    (str "balance",
     seqs (alts (map lits ["balance"; "bal"; "available balance"]%string)
           :: bank_tail)) ].

(** [[A-Za-z0-9\s&.-]] *)
Definition name_char : regex :=
  Set_ false [Range (chr "A") (chr "Z"); Range (chr "a") (chr "z");
              Range (chr "0") (chr "9"); Spaces; One (chr "&"); One (chr ".");
              One (chr "-")].
(** [[\s:]] *)
Definition space_or_colon : regex := Set_ false [Spaces; One (chr ":")].

Definition merchant_patterns : list regex :=
  [ (* (?:from|to|merchant|vendor|seller|store)[\s:]+([A-Za-z0-9\s&.-]+) *)
    seqs [alts (map lits ["from"; "to"; "merchant"; "vendor"; "seller"; "store"]%string);
          plus space_or_colon; Grp 1 (plus name_char)];
    (* (?:paid to|received from)[\s:]+([A-Za-z0-9\s&.-]+) *)
    seqs [alts (map lits ["paid to"; "received from"]%string);
          plus space_or_colon; Grp 1 (plus name_char)];
    (* ^([A-Z][A-Za-z0-9\s&.-]{2,30}) *)
    seqs [Bol; Grp 1 (Seq (Set_ false [Range (chr "A") (chr "Z")])
                          (times 2 30 name_char))] ].

(** ** Amounts

    The value of a digit string with at most one dot: [mant / 10 ^ scale],
    kept in lowest terms (no trailing zero in the fraction), so that equal
    values are equal records. *)

Record decimal := { mant : N; scale : nat }.

Fixpoint norm (m : N) (sc : nat) : decimal :=
  match sc with
  | O => {| mant := m; scale := O |}
  | S sc' =>
      if (m mod 10 =? 0)%N then norm (m / 10) sc'
      else {| mant := m; scale := sc |}
  end.

Definition digit_val (c : char) : N := c - 48.

(** The number written by a string of digits. *)
Definition num_of (ds : text) : N :=
  fold_left (fun acc c => acc * 10 + digit_val c)%N ds 0%N.

Definition pow10 (n : nat) : N := (10 ^ N.of_nat n)%N.

Definition dlt (a b : decimal) : bool :=
  (mant a * pow10 (scale b) <? mant b * pow10 (scale a))%N.
Definition dle (a b : decimal) : bool := negb (dlt b a).
Definition of_N (n : N) : decimal := {| mant := n; scale := O |}.
Definition is_zero (a : decimal) : bool := (mant a =? 0)%N.
(** [a.is_integer()] *)
Definition is_integer (a : decimal) : bool := Nat.eqb (scale a) 0.

Fixpoint span_digits (s : text) : text * text :=
  match s with
  | c :: t =>
      if is_digit c then let (ds, r) := span_digits t in (c :: ds, r)
      else ([], s)
  | [] => ([], [])
  end.

(** [float(s)] on a string made of digits and dots: digits, an optional
    dot, digits, with a digit somewhere; anything else is a
    [ValueError] ([None]). *)
Definition float_of (s : text) : option decimal :=
  let (ip, r) := span_digits s in
  match r with
  | [] =>
      match ip with
      | [] => None
      | _ => Some (of_N (num_of ip))
      end
  | c :: fp =>
      if ceq c (chr ".") && forallb is_digit fp &&
         negb (Nat.eqb (length ip + length fp) 0)
      then Some (norm (num_of (ip ++ fp)) (length fp))
      else None
  end.

(** [^\d+(?:,\d{3})*(?:\.\d{2})?$] *)
Definition last_part_pattern : regex :=
  seqs [Bol; plus d; star (Seq (Lit (chr ",")) (times 3 3 d));
        opt (Seq (Lit (chr ".")) (times 2 2 d)); Eol].

Definition remove (c : char) (s : text) : text :=
  filter (fun x => negb (ceq x c)) s.

Definition count (c : char) (s : text) : nat :=
  length (filter (fun x => ceq x c) s).

(** [EnhancedOCREngine._clean_amount] *)
Definition _clean_amount (amount_str : text) : outcome (option decimal) :=
  amount_str <-
    (if existsb (fun c => ceq c sp) amount_str
     then
       let parts := split_ws amount_str in
       match rev parts with
       | [] => Raise IndexError
       | last_part :: _ =>
           match re_match plain last_part_pattern (remove (chr ",") last_part) with
           | Some _ => Ret last_part
           | None => Ret amount_str
           end
       end
     else Ret amount_str) ;;
  (* re.sub(r'[^\d,.]', '', amount_str) *)
  let cleaned :=
    filter (fun c => negb (set_match plain true
                             [Digits; One (chr ","); One (chr ".")] c))
           amount_str in
  let cleaned := remove (chr ",") cleaned in
  let cleaned :=
    if 1 <? count (chr ".") cleaned
    then
      let parts := split_on (chr ".") cleaned in
      concat (removelast parts) ++ [chr "."] ++ last parts []
    else cleaned in
  Ret (float_of cleaned).

(** ** The amount resolver *)

Record candidate := {
  amount : decimal;
  priority : nat;
  line : text;
  line_index : option nat       (* [None] is the source's [-1] *)
}.

(** The matches that clean to a value, in order. *)
Fixpoint clean_all (ms : list text) : outcome (list (text * decimal)) :=
  match ms with
  | [] => Ret []
  | m :: ms' =>
      a <- _clean_amount m ;;
      more <- clean_all ms' ;;
      Ret (match a with
           | Some v => (m, v) :: more
           | None => more
           end)
  end.

(** [for pattern in self.amount_patterns: for match in re.findall(...)] *)
Definition amount_matches (l : text) : list text :=
  flat_map (fun p => re_findall icase p l) amount_patterns.

Definition line_candidates (pr : nat) (l : text) (i : nat)
  : outcome (list candidate) :=
  vs <- clean_all (amount_matches l) ;;
  Ret (map (fun mv => {| amount := snd mv; priority := pr; line := l;
                         line_index := Some i |}) vs).

(** Strategy 1, over [enumerate(lines)] from index [i]. *)
Fixpoint strategy1 (i : nat) (lines : list text) : outcome (list candidate) :=
  match lines with
  | [] => Ret []
  | l :: tl =>
      let line_lower := lower_text l in
      let has_total_keyword := any_in total_keywords line_lower in
      let should_ignore := any_in ignore_keywords line_lower in
      if has_total_keyword && negb should_ignore
      then
        same <- line_candidates
                  (if contains (str "grand total") line_lower ||
                      contains (str "net amount") line_lower
                   then 200 else 100) l i ;;
        next <- match tl with
                | next_line :: _ => line_candidates 90 next_line (S i)
                | [] => Ret []
                end ;;
        more <- strategy1 (S i) tl ;;
        Ret (same ++ next ++ more)
      else strategy1 (S i) tl
  end.

(** Strategy 2: the credit and debit patterns over the whole text. *)
Definition strategy2 (t : text) : outcome (list candidate) :=
  vs <- clean_all
          (flat_map
             (fun np =>
                if existsb (text_eqb (fst np)) [str "credit"; str "debit"]
                then re_findall icase (snd np) t
                else [])
             bank_patterns) ;;
  Ret (map (fun mv => {| amount := snd mv; priority := 80; line := fst mv;
                         line_index := None |}) vs).

(** The amounts of one line that strategy 3 keeps. *)
Definition keep3 (a : decimal) : bool :=
  dlt (of_N 1) a &&
  negb (is_integer a && dle (of_N 2000) a && dle a (of_N 2100)).

Fixpoint all_amounts (lines : list text) : outcome (list decimal) :=
  match lines with
  | [] => Ret []
  | l :: tl =>
      if any_in ignore_keywords (lower_text l)
      then all_amounts tl
      else
        vs <- clean_all (amount_matches l) ;;
        more <- all_amounts tl ;;
        Ret (filter keep3 (map snd vs) ++ more)
  end.

(** [max(xs)] of a non-empty list: the first largest element. *)
Definition max_of (x : decimal) (xs : list decimal) : decimal :=
  fold_left (fun best y => if dlt best y then y else best) xs x.

Definition strategy3 (lines : list text) : outcome (list candidate) :=
  amounts <- all_amounts lines ;;
  Ret (match amounts with
       | [] => []
       | x :: xs => [ {| amount := max_of x xs; priority := 50; line := [];
                         line_index := None |} ]
       end).

(** [candidates.sort(key=lambda x: x['priority'], reverse=True)]: a stable
    sort, greatest priority first. *)
Fixpoint insert_by_priority (c : candidate) (cs : list candidate)
  : list candidate :=
  match cs with
  | [] => [c]
  | x :: cs' =>
      if priority c <? priority x then x :: insert_by_priority c cs'
      else c :: cs
  end.

Definition sort_by_priority (cs : list candidate) : list candidate :=
  fold_right insert_by_priority [] cs.

(** The candidates of the cascade: each strategy runs only when the ones
    before it found nothing. *)
Definition candidates_of (t : text) : outcome (list candidate) :=
  let lines := split_on nl t in
  c1 <- strategy1 0 lines ;;
  c2 <- match c1 with
        | [] => strategy2 t
        | _ => Ret c1
        end ;;
  match c2 with
  | [] => strategy3 lines
  | _ => Ret c2
  end.

(** [EnhancedOCREngine.extract_total_amount] *)
Definition extract_total_amount (t : text) : outcome (option decimal) :=
  candidates <- candidates_of t ;;
  Ret (match sort_by_priority candidates with
       | c :: _ => Some (amount c)
       | [] => None
       end).

(** ** Dates: [datetime.strptime] and [strftime('%Y-%m-%d')] *)

Record datetime := { year : nat; month : nat; day : nat }.

Definition is_leap (y : nat) : bool :=
  Nat.eqb (y mod 4) 0 && (negb (Nat.eqb (y mod 100) 0) || Nat.eqb (y mod 400) 0).

Definition days_in_month (y m : nat) : nat :=
  match m with
  | 1 | 3 | 5 | 7 | 8 | 10 | 12 => 31
  | 4 | 6 | 9 | 11 => 30
  | 2 => if is_leap y then 29 else 28
  | _ => 0
  end.

(** The dates the [datetime] constructor accepts. *)
Definition valid_date (dt : datetime) : bool :=
  (1 <=? year dt) && (year dt <=? 9999) &&
  (1 <=? month dt) && (month dt <=? 12) &&
  (1 <=? day dt) && (day dt <=? days_in_month (year dt) (month dt)).

Inductive directive :=
| Dd | Dm | DY | Dy | Db | DB      (* %d %m %Y %y %b %B *)
| Dlit (c : char)
| Dspace.

Definition month_names : list text := map str
  [ "january"; "february"; "march"; "april"; "may"; "june"; "july";
    "august"; "september"; "october"; "november"; "december" ]%string.
Definition month_abbrs : list text := map (firstn 3) month_names.

(** [sorted(names, key=len, reverse=True)], as [_strptime] lists the names
    of a directive in its pattern. *)
Fixpoint insert_by_length (x : text) (xs : list text) : list text :=
  match xs with
  | [] => [x]
  | y :: xs' =>
      if length x <? length y then y :: insert_by_length x xs' else x :: xs
  end.
Definition longest_first (xs : list text) : list text :=
  fold_right insert_by_length [] xs.

Definition text_re (s : text) : regex :=
  fold_right (fun c r => Seq (Lit c) r) Eps s.
Definition digit_range (lo hi : string) : regex :=
  Set_ false [Range (chr lo) (chr hi)].

Definition g_d := 1.
Definition g_m := 2.
Definition g_Y := 3.
Definition g_y := 4.
Definition g_b := 5.
Definition g_B := 6.

(** The pattern [_strptime] substitutes for a directive. *)
Definition directive_re (x : directive) : regex :=
  match x with
  | Dd => (* 3[0-1]|[1-2]\d|0[1-9]|[1-9]| [1-9] *)
      Grp g_d (alts [Seq (Lit (chr "3")) (digit_range "0" "1");
                     Seq (digit_range "1" "2") d;
                     Seq (Lit (chr "0")) (digit_range "1" "9");
                     digit_range "1" "9";
                     Seq (Lit sp) (digit_range "1" "9")])
  | Dm => (* 1[0-2]|0[1-9]|[1-9] *)
      Grp g_m (alts [Seq (Lit (chr "1")) (digit_range "0" "2");
                     Seq (Lit (chr "0")) (digit_range "1" "9");
                     digit_range "1" "9"])
  | DY => Grp g_Y (seqs [d; d; d; d])
  | Dy => Grp g_y (seqs [d; d])
  | Db => Grp g_b (alts (map text_re (longest_first month_abbrs)))
  | DB => Grp g_B (alts (map text_re (longest_first month_names)))
  | Dlit c => Lit c
  | Dspace => plus s_
  end.

Definition format_re (fmt : list directive) : regex :=
  seqs (map directive_re fmt).

Definition slash := Dlit (chr "/").
Definition dash := Dlit (chr "-").
Definition comma := Dlit (chr ",").

Definition date_formats : list (list directive) :=
  [ [Dd; slash; Dm; slash; DY];        (* %d/%m/%Y *)
    [Dd; dash; Dm; dash; DY];          (* %d-%m-%Y *)
    [Dd; slash; Dm; slash; Dy];        (* %d/%m/%y *)
    [Dd; dash; Dm; dash; Dy];          (* %d-%m-%y *)
    [DY; dash; Dm; dash; Dd];          (* %Y-%m-%d *)
    [DY; slash; Dm; slash; Dd];        (* %Y/%m/%d *)
    [Dd; Dspace; Db; Dspace; DY];      (* %d %b %Y *)
    [Dd; Dspace; DB; Dspace; DY];      (* %d %B %Y *)
    [Db; Dspace; Dd; comma; Dspace; DY];   (* %b %d, %Y *)
    [DB; Dspace; Dd; comma; Dspace; DY] ]. (* %B %d, %Y *)

(** [int(s)] on a group of digits, possibly after a space. *)
Definition int_of (s : text) : nat := N.to_nat (num_of (filter is_digit s)).

(** [names.index(s.lower())], counted from 1. *)
Fixpoint index_of (s : text) (names : list text) (i : nat) : option nat :=
  match names with
  | [] => None
  | n :: names' => if text_eqb n s then Some i else index_of s names' (S i)
  end.

Definition first_some {A : Type} (xs : list (option A)) : option A :=
  fold_right (fun x acc => match x with Some v => Some v | None => acc end)
             None xs.

(** [datetime.strptime(data_string, fmt)]; [None] is its [ValueError]. *)
Definition strptime (data_string : text) (fmt : list directive)
  : option datetime :=
  match re_match icase (format_re fmt) data_string with
  | None => None
  | Some found =>
      match rest found with
      | _ :: _ => None             (* unconverted data remains *)
      | [] =>
          let g n := group n (caps found) in
          let y :=
            first_some
              [ option_map int_of (g g_Y);
                option_map (fun s => let v := int_of s in
                                     if v <=? 68 then v + 2000 else v + 1900)
                           (g g_y) ] in
          let m :=
            first_some
              [ option_map int_of (g g_m);
                match g g_b with
                | Some s => index_of (lower_text s) month_abbrs 1
                | None => None
                end;
                match g g_B with
                | Some s => index_of (lower_text s) month_names 1
                | None => None
                end ] in
          match y, m, g g_d with
          | Some y, Some m, Some ds =>
              let dt := {| year := y; month := m; day := int_of ds |} in
              if valid_date dt then Some dt else None
          | _, _, _ => None
          end
      end
  end.

Definition digit_char (n : nat) : char := N.of_nat (48 + n mod 10).

(** [%Y]: the year as a decimal number, without padding.  The year of a
    [datetime] is 1 to 9999. *)
Definition year_digits (y : nat) : text :=
  if y <? 10 then [digit_char y]
  else if y <? 100 then [digit_char (y / 10); digit_char y]
  else if y <? 1000
       then [digit_char (y / 100); digit_char (y / 10); digit_char y]
       else [digit_char (y / 1000); digit_char (y / 100);
             digit_char (y / 10); digit_char y].

(** [dt.strftime('%Y-%m-%d')] *)
Definition strftime (dt : datetime) : text :=
  year_digits (year dt) ++
  [ chr "-"; digit_char (month dt / 10); digit_char (month dt); chr "-";
    digit_char (day dt / 10); digit_char (day dt) ].

(** The first of [date_formats] under which [date_str] parses. *)
Definition parse_date (date_str : text) : option datetime :=
  first_some (map (strptime date_str) date_formats).

Fixpoint extract_date_with (patterns : list regex) (now : datetime) (t : text)
  : text :=
  match patterns with
  | [] => strftime now
  | pattern :: patterns' =>
      match re_search icase pattern t with
      | Some m =>
          match parse_date (group0 m) with
          | Some parsed_date => strftime parsed_date
          | None => extract_date_with patterns' now t
          end
      | None => extract_date_with patterns' now t
      end
  end.

(** [EnhancedOCREngine.extract_date]; [now] is [datetime.now()]. *)
Definition extract_date (now : datetime) (t : text) : text :=
  extract_date_with date_patterns now t.

(** ** The description resolver *)

Definition known_merchants : list text := map str
  [ "Zomato"; "Swiggy"; "Uber"; "Ola"; "Amazon"; "Flipkart"; "Myntra"; "Ajio";
    "Starbucks"; "McDonalds"; "KFC"; "Dominos"; "Pizza Hut"; "Burger King";
    "Subway"; "Dmart"; "BigBasket"; "Blinkit"; "Zepto"; "Dunzo" ]%string.

Definition transaction_types : list (text * text) :=
  map (fun kv => (str (fst kv), str (snd kv)))
  [ ("payment", "Payment Transaction"); ("transfer", "Fund Transfer");
    ("deposit", "Deposit"); ("withdrawal", "Withdrawal");
    ("purchase", "Purchase"); ("refund", "Refund"); ("food", "Food Order");
    ("cab", "Cab Service"); ("trip", "Trip"); ("ride", "Ride") ]%string.

(** [s.isdigit()] *)
Definition isdigit (s : text) : bool :=
  match s with
  | [] => false
  | _ => forallb is_digit s
  end.

(** Strategy 1: the first known merchant whose lower-cased name is in the
    lower-cased text. *)
Definition known_merchant (t : text) : option text :=
  find (fun merchant => contains (lower_text merchant) (lower_text t))
       known_merchants.

(** Strategy 2: the first merchant pattern whose group 1, stripped and
    squeezed, has more than 3 and fewer than 50 characters. *)
Fixpoint labelled_merchant (patterns : list regex) (t : text) : option text :=
  match patterns with
  | [] => None
  | pattern :: patterns' =>
      match re_search icase_multiline pattern t with
      | Some m =>
          let merchant := squeeze_ws (strip (group_or_empty 1 m)) in
          if (3 <? length merchant) && (length merchant <? 50)
          then Some merchant
          else labelled_merchant patterns' t
      | None => labelled_merchant patterns' t
      end
  end.

(** Strategy 3 on the lines it looks at. *)
Fixpoint first_clean_line (lines : list text) : option text :=
  match lines with
  | [] => None
  | l :: lines' =>
      let line_lower := lower_text l in
      if (length l <? 4) || isdigit l then first_clean_line lines'
      else if existsb (fun pattern =>
                         match re_search plain pattern l with
                         | Some _ => true
                         | None => false
                         end) date_patterns
              && (length l <? 15)
      then first_clean_line lines'
      else if any_in ignore_keywords line_lower then first_clean_line lines'
      else
        let cleaned := squeeze_ws l in
        if 4 <? length cleaned then Some (firstn 100 cleaned)
        else first_clean_line lines'
  end.

(** Strategy 4: the label of the first keyword present. *)
Definition type_label (t : text) : option text :=
  option_map snd
    (find (fun kv => contains (fst kv) (lower_text t)) transaction_types).

Definition is_empty (s : text) : bool :=
  match s with [] => true | _ => false end.

(** [EnhancedOCREngine.extract_description] *)
Definition extract_description (t : text) : text :=
  let lines :=
    map strip (filter (fun l => negb (is_empty (strip l))) (split_on nl t)) in
  match known_merchant t with
  | Some merchant => merchant
  | None =>
      match labelled_merchant merchant_patterns t with
      | Some merchant => merchant
      | None =>
          match first_clean_line (firstn 5 lines) with
          | Some cleaned => cleaned
          | None =>
              match type_label t with
              | Some description => description
              | None => str "Transaction"
              end
          end
      end
  end.

(** ** The type classifier *)

Definition income_keywords : list text := map str
  [ "credit"; "credited"; "received"; "deposit"; "deposited";
    "salary"; "payment received"; "refund"; "cashback";
    "transferred to your account"; "added to"; "income" ]%string.

Definition expense_keywords : list text := map str
  [ "debit"; "debited"; "paid"; "payment"; "purchase";
    "withdrawn"; "transferred from your account"; "expense";
    "bill"; "invoice"; "order"; "booking" ]%string.

(** [sum(1 for keyword in keywords if keyword in text_lower)] *)
Fixpoint score (keywords : list text) (text_lower : text) : nat :=
  match keywords with
  | [] => 0
  | keyword :: keywords' =>
      (if contains keyword text_lower then 1 else 0) + score keywords' text_lower
  end.

(** [EnhancedOCREngine.detect_transaction_type] *)
Definition detect_transaction_type (t description : text) : text :=
  let text_lower := lower_text t in
  let income_score := score income_keywords text_lower in
  let expense_score := score expense_keywords text_lower in
  if expense_score <? income_score then str "income" else str "expense".

(** ** The orchestrator *)

Record transaction := {
  tx_date : text;
  tx_description : text;
  tx_amount : decimal;
  tx_type : text;
  tx_raw_text : text
}.

(** [not amount]: [None] or zero. *)
Definition no_amount (a : option decimal) : bool :=
  match a with
  | None => true
  | Some v => is_zero v
  end.

(** The text of record and the amount after the two recognition passes.
    [first_pass] is what [extract_text] returned for the image; [raw_pass]
    is what recognition of the raw image returns, [None] when it raises.
    The second pass runs inside [try ... except Exception]: the text is
    replaced before the amount is resolved again, and an exception of the
    resolver there is swallowed. *)
Definition two_passes (first_pass : text) (raw_pass : option text)
  : outcome (text * option decimal) :=
  a <- extract_total_amount first_pass ;;
  if no_amount a
  then match raw_pass with
       | Some text_raw =>
           match extract_total_amount text_raw with
           | Ret a' => Ret (text_raw, a')
           | Raise _ => Ret (text_raw, a)
           end
       | None => Ret (first_pass, a)
       end
  else Ret (first_pass, a).

(** [EnhancedOCREngine.extract_transactions]; [opened] tells whether the
    file could be read and decoded. *)
Definition extract_transactions (opened : bool) (first_pass : text)
  (raw_pass : option text) (now : datetime) : outcome (list transaction) :=
  if negb opened then Ret []
  else
    ta <- two_passes first_pass raw_pass ;;
    let (t, a) := ta in
    if is_empty t || (length (strip t) <? 5) then Ret []
    else
      let date := extract_date now t in
      let description := extract_description t in
      let transaction_type := detect_transaction_type t description in
      match a with
      | Some v =>
          if is_zero v then Ret []
          else Ret [ {| tx_date := date;
                        tx_description := description;
                        tx_amount := v;
                        tx_type := transaction_type;
                        tx_raw_text := firstn 500 t |} ]
      | None => Ret []
      end.

(** ** Text recognition *)

(** The three segmentation configurations of [extract_text]. *)
Definition configs : list text := map str
  [ "--oem 3 --psm 6"; "--oem 3 --psm 3"; "--oem 3 --psm 4" ]%string.

(** The loop of [extract_text] over the configurations;
    [image_to_string config] is the text recognised under [config],
    [None] when the recognition raises. *)
Fixpoint best_text_of (image_to_string : text -> option text)
  (cfgs : list text) (best_text : text) (max_len : nat) : option text :=
  match cfgs with
  | [] => Some best_text
  | config :: cfgs' =>
      match image_to_string config with
      | None => None
      | Some t =>
          let cleaned_text := strip t in
          if max_len <? length cleaned_text
          then best_text_of image_to_string cfgs' cleaned_text
                            (length cleaned_text)
          else best_text_of image_to_string cfgs' best_text max_len
      end
  end.

(** [EnhancedOCREngine.extract_text]; [preprocessed] tells whether
    [preprocess_image] returned.  Any exception gives the empty text. *)
Definition extract_text (preprocessed : bool)
  (image_to_string : text -> option text) : text :=
  if preprocessed
  then match best_text_of image_to_string configs [] 0 with
       | Some best_text => best_text
       | None => []
       end
  else [].

Module App.

(** [expense_keywords] of [categorize_transaction], in insertion order. *)
Definition expense_keywords : list (text * text) :=
  [ (str "food", str "Food");
    (str "transport", str "Transport");
    (str "uber", str "Transport");
    (str "ola", str "Transport");
    (str "office", str "Office Supplies");
    (str "software", str "Software");
    (str "internet", str "Utilities");
    (str "electricity", str "Utilities") ].

(** The loop over [expense_keywords.items()]. *)
Fixpoint recategorize (keywords : list (text * text)) (desc_lower : text)
  : text :=
  match keywords with
  | [] => str "Uncategorized"
  | (keyword, cat) :: keywords' =>
      if contains keyword desc_lower then cat
      else recategorize keywords' desc_lower
  end.

(** [categorize_transaction]; [ml_model] is [None] when no model was
    loaded, and [predict description] is the first category of
    [ml_model.predict([description])], [None] when the call raises. *)
Definition categorize_transaction (ml_model : option (text -> option text))
  (description transaction_type : text) : text :=
  match ml_model with
  | None => str "Uncategorized"
  | Some predict =>
      match predict description with
      | Some category =>
          if text_eqb category (str "Income") &&
             text_eqb transaction_type (str "expense")
          then recategorize expense_keywords (lower_text description)
          else category
      | None => str "Uncategorized"
      end
  end.

End App.

(** ** What a match is

    [Match fl r st st1]: pattern [r] matches the text between the
    positions [st] and [st1].  The matcher returns only such matches
    ([run_sound]); which one it returns is decided by its backtracking
    order. *)

Inductive Match (fl : flags) : regex -> mstate -> mstate -> Prop :=
| M_Eps st : Match fl Eps st st
| M_Lit p st c t :
    rest st = c :: t -> lit_match fl p c = true ->
    Match fl (Lit p) st (advance st c t)
| M_Set neg items st c t :
    rest st = c :: t -> set_match fl neg items c = true ->
    Match fl (Set_ neg items) st (advance st c t)
| M_Seq a b st st1 st2 :
    Match fl a st st1 -> Match fl b st1 st2 -> Match fl (Seq a b) st st2
| M_AltL a b st st1 : Match fl a st st1 -> Match fl (Alt a b) st st1
| M_AltR a b st st1 : Match fl b st st1 -> Match fl (Alt a b) st st1
| M_RepStop hi a st : Match fl (Rep 0 hi a) st st
| M_RepStep lo hi a st st1 st2 :
    hi <> Some 0 ->
    Match fl a st st1 ->
    Match fl (Rep (Nat.pred lo) (option_map Nat.pred hi) a) st1 st2 ->
    Match fl (Rep lo hi a) st st2
| M_Grp n a st st1 :
    Match fl a st st1 -> Match fl (Grp n a) st (set_cap n (matched st st1) st1)
| M_Bow st : xorb (word_before st) (word_after st) = true -> Match fl Bow st st
| M_Bol st : at_bol fl st = true -> Match fl Bol st st
| M_Eol st : at_eol fl st = true -> Match fl Eol st st.

(** [s] is what is left of [l] after some characters. *)
Definition suffix (s l : text) : Prop := exists skipped, l = skipped ++ s.

(** Some position of [l] satisfies [f]. *)
Fixpoint somewhere (f : text -> bool) (l : text) : bool :=
  f l || match l with
         | [] => false
         | _ :: l' => somewhere f l'
         end.

(** Every character that the atoms of [r] accept satisfies [P]. *)
Fixpoint alphabet (fl : flags) (P : char -> Prop) (r : regex) : Prop :=
  match r with
  | Lit p => forall c, lit_match fl p c = true -> P c
  | Set_ neg items => forall c, set_match fl neg items c = true -> P c
  | Seq a b | Alt a b => alphabet fl P a /\ alphabet fl P b
  | Rep _ _ a | Grp _ a => alphabet fl P a
  | Eps | Bow | Bol | Eol => True
  end.

(** Every group of [r] is over the alphabet [P]. *)
Fixpoint groups_over (fl : flags) (P : char -> Prop) (r : regex) : Prop :=
  match r with
  | Seq a b | Alt a b => groups_over fl P a /\ groups_over fl P b
  | Rep _ _ a => groups_over fl P a
  | Grp _ a => alphabet fl P a /\ groups_over fl P a
  | _ => True
  end.

Definition caps_over (P : char -> Prop) (st : mstate) : Prop :=
  Forall (fun ng => Forall P (snd ng)) (caps st).

(** ** Notions used to state the properties *)

(** A character other than the space. *)
Definition not_space (c : char) : Prop := ceq c sp = false.

(** [c] is the first candidate of [cs] with the greatest priority. *)
Definition first_of_max (c : candidate) (cs : list candidate) : Prop :=
  exists before after,
    cs = before ++ c :: after /\
    (forall x, In x before -> priority x < priority c) /\
    (forall x, In x after -> priority x <= priority c).

(** The line does not ask for priority 200. *)
Definition plain_total (l : text) : Prop :=
  contains (str "grand total") (lower_text l) = false /\
  contains (str "net amount") (lower_text l) = false.

(** The line of the priority scenario. *)
Definition grand_total_1200 : text := str "Grand Total 1200".

(** The receipt of the end-to-end scenario. *)
Definition cafe_receipt : text :=
  unlines (map str ["ABC CAFE"; "Date: 12/03/2024"; "Subtotal: 450.00";
                    "CGST: 20.00"; "Total: 495.00"]%string).

(** The text of record after the two passes. *)
Definition final_text (first_pass : text) (raw_pass : option text) : text :=
  match two_passes first_pass raw_pass with
  | Ret (t, _) => t
  | Raise _ => first_pass
  end.

(** The number of characters that are not white space. *)
Definition non_whitespace (t : text) : nat :=
  length (filter (fun c => negb (is_space c)) t).

(** The shape YYYY-MM-DD. *)
Definition is_iso (s : text) : bool :=
  match s with
  | [y1; y2; y3; y4; h1; m1; m2; h2; d1; d2] =>
      forallb is_digit [y1; y2; y3; y4; m1; m2; d1; d2] &&
      ceq h1 (chr "-") && ceq h2 (chr "-")
  | _ => false
  end.

(** [keyword] occurs in [t], letter case apart. *)
Definition found_in (t keyword : text) : bool :=
  contains (lower_text keyword) (lower_text t).

(** How many of the [keywords] occur in [t]. *)
Definition count_found (keywords : list text) (t : text) : nat :=
  length (filter (found_in t) keywords).

(** *** The decimal rendering of an amount *)

(** A value in lowest terms. *)
Definition canonical (v : decimal) : Prop :=
  scale v = 0 \/ (mant v mod 10 <> 0)%N.

(** The digits of [n], last digit first. *)
Fixpoint rev_digits (fuel : nat) (n : N) : text :=
  match fuel with
  | O => []
  | S fuel' =>
      (48 + n mod 10)%N ::
      (if (n <? 10)%N then [] else rev_digits fuel' (n / 10))
  end.

(** The decimal digits of [n]. *)
Definition digits_of (n : N) : text :=
  rev (rev_digits (S (N.to_nat (N.log2 n))) n).

(** The last [k] digits of [n], last digit first. *)
Fixpoint rev_fixed (k : nat) (n : N) : text :=
  match k with
  | O => []
  | S k' => (48 + n mod 10)%N :: rev_fixed k' (n / 10)
  end.

(** The positional notation of a value: the integer part, a dot, and the
    fraction digits ("0" when there is none). *)
Definition render (v : decimal) : text :=
  digits_of (mant v / pow10 (scale v)) ++ [chr "."] ++
  match scale v with
  | O => [chr "0"]
  | S _ => rev (rev_fixed (scale v) (mant v mod pow10 (scale v)))
  end.

(** [r] without its leading zeros. *)
Fixpoint drop_zeros (r : text) : text :=
  match r with
  | c :: r' => if ceq c (chr "0") then drop_zeros r' else r
  | [] => []
  end.

(** The significant digits of a value: the digits of its mantissa
    without the trailing zeros. *)
Definition sig_digits (v : decimal) : text :=
  rev (drop_zeros (rev (digits_of (mant v)))).

(** The value has at most fifteen significant digits: the float read
    from its decimal notation prints back as that notation. *)
Definition sig15 (v : decimal) : Prop := length (sig_digits v) <= 15.

(** [repr] writes a float in positional notation when it is zero or lies
    in [1e-4, 1e16): with [n] digits in the mantissa, the decimal point
    stands [n - scale] places after the first digit, and
    [-4 < n - scale <= 16]. *)
Definition positional (v : decimal) : bool :=
  (mant v =? 0)%N ||
  let n := length (digits_of (mant v)) in
  (scale v <? n + 4) && (n <=? scale v + 16).

(** The exponent of the scientific notation, on two digits at least. *)
Definition exponent (e : nat) : text :=
  if e <? 10 then chr "0" :: digits_of (N.of_nat e)
  else digits_of (N.of_nat e).

(** The decimal rendering of a float value in lowest terms, [repr(v)]
    and [str(v)]: positional notation in [1e-4, 1e16), scientific
    notation outside ("1e+16", "1.5e+16", "1e-05"). *)
Definition float_repr (v : decimal) : text :=
  if positional v then render v
  else
    let n := length (digits_of (mant v)) in
    match sig_digits v with
    | [] => []
    | d :: ds =>
        d :: match ds with [] => [] | _ => chr "." :: ds end ++
        chr "e" ::
        (if scale v <? n then chr "+" :: exponent (n - scale v - 1)
         else chr "-" :: exponent (scale v + 1 - n))
    end.

(** Every character of [s] is a digit. *)
Definition all_digits (s : text) : Prop :=
  Forall (fun c => is_digit c = true) s.

(** *** Bare decimals *)

(** Prefix test, letter case apart. *)
Fixpoint starts_with_ci (p s : text) : bool :=
  match p, s with
  | [], _ => true
  | x :: p', y :: s' => ceq (lower y) (lower x) && starts_with_ci p' s'
  | _ :: _, [] => false
  end.

(** A currency marker starts here: "rs", the rupee sign or "inr". *)
Definition marker_here (s : text) : bool :=
  starts_with_ci (str "rs") s || starts_with_ci [rupee] s ||
  starts_with_ci (str "inr") s.

(** Comma grouping starts here: a digit, a comma, a digit. *)
Definition grouping_here (s : text) : bool :=
  match s with
  | a :: b :: c :: _ => is_digit a && ceq b (chr ",") && is_digit c
  | _ => false
  end.

(** Four digits in a row start here. *)
Definition four_digits_here (s : text) : bool :=
  match s with
  | a :: b :: c :: e :: _ => is_digit a && is_digit b && is_digit c && is_digit e
  | _ => false
  end.

(** The text holds ASCII characters only. *)
Definition ascii_text (s : text) : Prop := Forall (fun c => (c < 128)%N) s.

(** The numbers of the line are bare and short: no currency marker, no
    comma grouping, no run of four digits. *)
Definition bare_numbers (l : text) : Prop :=
  somewhere marker_here l = false /\
  somewhere grouping_here l = false /\
  somewhere four_digits_here l = false.

(** No character of [s] is a digit. *)
Definition no_digits (s : text) : Prop :=
  Forall (fun c => is_digit c = false) s.

(** *** White space *)

(** No white space in [s]. *)
Definition no_space (s : text) : Prop := Forall (fun c => is_space c = false) s.
(** Only white space in [s]. *)
Definition blank (s : text) : Prop := Forall (fun c => is_space c = true) s.

(** White space in [s] is the plain space only, and [s] does not begin
    with it. *)
Definition single_line (s : text) : Prop :=
  Forall (fun c => is_space c = true -> c = sp) s /\
  match s with [] => True | c :: _ => is_space c = false end.

Definition single_lineb (s : text) : bool :=
  forallb (fun c => negb (is_space c) || ceq c sp) s &&
  match s with [] => true | c :: _ => negb (is_space c) end.

(** *** Candidates and the shape of a captured amount *)

(** The candidates of one run of the cascade are all of one level:
    keyword lines (200, 100, 90), bank patterns (80), or the single
    largest amount (50). *)
Definition one_level (cs : list candidate) : Prop :=
  (forall c, In c cs -> In (priority c) [200; 100; 90]) \/
  (forall c, In c cs -> priority c = 80) \/
  (exists c, cs = [c] /\ priority c = 50 /\ line_index c = None /\
             keep3 (amount c) = true).

(** Every group of [r] matches only texts that satisfy [Q]. *)
Fixpoint groups_sat (fl : flags) (Q : text -> Prop) (r : regex) : Prop :=
  match r with
  | Seq a b | Alt a b => groups_sat fl Q a /\ groups_sat fl Q b
  | Rep _ _ a => groups_sat fl Q a
  | Grp _ a =>
      (forall st st1, Match fl a st st1 -> Q (matched st st1)) /\
      groups_sat fl Q a
  | _ => True
  end.

Definition digit_or_comma (c : char) : Prop :=
  is_digit c = true \/ c = chr ",".

(** The shape of a captured amount: digits and commas, then nothing or a
    dot and two digits. *)
Definition money_shape (g : text) : Prop :=
  exists body tail,
    g = body ++ tail /\ Forall digit_or_comma body /\
    (tail = [] \/
     exists d1 d2, tail = [chr "."; d1; d2] /\
                   is_digit d1 = true /\ is_digit d2 = true).

(** *** Calendar dates and their written forms *)

(** The days 1..31 of the months 1..12 of the years [y0 .. y0 + n - 1]. *)
Definition calendar (y0 n : nat) : list datetime :=
  flat_map (fun y =>
    flat_map (fun m =>
      map (fun d => {| year := y; month := m; day := d |}) (seq 1 31))
      (seq 1 12))
    (seq y0 n).

(** The date written DD/MM/YYYY, with [sep] for the slash. *)
Definition dmy (sep : char) (dt : datetime) : text :=
  [ digit_char (day dt / 10); digit_char (day dt); sep;
    digit_char (month dt / 10); digit_char (month dt); sep;
    digit_char (year dt / 1000); digit_char (year dt / 100);
    digit_char (year dt / 10); digit_char (year dt) ].

(** The date that the first date pattern reads in the tail YY-MM-DD of an
    ISO date: the two-digit year as the day, the day as the year. *)
Definition read_as_dmy (dt : datetime) : datetime :=
  {| year := 2000 + day dt; month := month dt; day := year dt mod 100 |}.

(** The date of the first pattern whose match parses, if any. *)
Fixpoint found_date (patterns : list regex) (t : text) : option datetime :=
  match patterns with
  | [] => None
  | pattern :: patterns' =>
      match re_search icase pattern t with
      | Some m =>
          match parse_date (group0 m) with
          | Some dt => Some dt
          | None => found_date patterns' t
          end
      | None => found_date patterns' t
      end
  end.

Definition same_date (a b : datetime) : bool :=
  Nat.eqb (year a) (year b) && Nat.eqb (month a) (month b) &&
  Nat.eqb (day a) (day b).

Definition finds (t : text) (dt : datetime) : bool :=
  match found_date date_patterns t with
  | Some r => same_date r dt
  | None => false
  end.

Definition day_first_read (dt : datetime) : bool :=
  negb (valid_date dt) ||
  (finds (dmy (chr "/") dt) dt && finds (dmy (chr "-") dt) dt).

Definition iso_read (dt : datetime) : bool :=
  negb (valid_date dt) ||
  finds (strftime dt)
        (if valid_date (read_as_dmy dt) then read_as_dmy dt else dt).

(** ** Proof tools *)

Arguments any_in : simpl never.
Arguments contains : simpl never.
Arguments amount_matches : simpl never.
Arguments firstn : simpl never.
Arguments strip : simpl never.
Arguments set_match : simpl never.
Arguments lit_match : simpl never.

Ltac inv H := inversion H; subst; clear H.

Ltac inv_match :=
  match goal with
  | H : Match _ (Seq _ _) _ _ |- _ => inv H
  | H : Match _ (Alt _ _) _ _ |- _ => inv H
  | H : Match _ (Lit _) _ _ |- _ => inv H
  | H : Match _ (Set_ _ _) _ _ |- _ => inv H
  | H : Match _ (Grp _ _) _ _ |- _ => inv H
  | H : Match _ Bow _ _ |- _ => inv H
  | H : Match _ Eps _ _ |- _ => inv H
  end.

Ltac inv_seq :=
  match goal with
  | H : Match _ (Seq _ _) _ _ |- _ => inv H
  end.
Ltac inv_atom :=
  match goal with
  | H : Match _ (Lit _) _ _ |- _ => inv H
  | H : Match _ (Set_ _ _) _ _ |- _ => inv H
  | H : Match _ (Grp _ _) _ _ |- _ => inv H
  | H : Match _ Bow _ _ |- _ => inv H
  end.

Ltac no_space_groups :=
  cbv -[set_match lit_match ceq sp]; repeat split; try exact I;
  intros c H; destruct (ceq c sp) eqn:E; [|reflexivity];
  apply N.eqb_eq in E; subst c; vm_compute in H; discriminate.

(** ** The matcher returns matches *)

Section Soundness.
Variable fl : flags.
Variable A : Type.

Lemma rep_loop_sound (a : regex) (k : mstate -> option A) :
  (forall st (k' : mstate -> option A) x, run fl a st k' = Some x ->
     exists st1, Match fl a st st1 /\ k' st1 = Some x) ->
  forall fuel lo hi st x,
    rep_loop (run fl a) k fuel lo hi st = Some x ->
    exists st1, Match fl (Rep lo hi a) st st1 /\ k st1 = Some x.
Proof.
  intros IHa fuel.
  induction fuel as [|fuel IH]; intros lo hi st x H; simpl in H.
  - discriminate.
  - assert (Hstop : match lo with O => k st | S _ => None end = Some x ->
                    exists st1, Match fl (Rep lo hi a) st st1 /\ k st1 = Some x).
    { destruct lo; [|discriminate]. intro Hk. exists st. split; [constructor|exact Hk]. }
    assert (Hstep : hi <> Some 0 ->
              run fl a st
                (fun st1 =>
                   if length (rest st1) <? length (rest st)
                   then rep_loop (run fl a) k fuel (Nat.pred lo)
                                 (option_map Nat.pred hi) st1
                   else None) = Some x ->
              exists st1, Match fl (Rep lo hi a) st st1 /\ k st1 = Some x).
    { intros Hhi Hr. apply IHa in Hr. destruct Hr as (st1 & Ha & Hk).
      destruct (length (rest st1) <? length (rest st)); [|discriminate].
      apply IH in Hk. destruct Hk as (st2 & Hrep & Hk).
      exists st2. split; [|exact Hk]. eapply M_RepStep; eauto. }
    destruct hi as [[|h]|].
    + apply Hstop, H.
    + match type of H with
      | match ?e with _ => _ end = _ => destruct e eqn:E
      end.
      * inversion H; subst. apply Hstep; [discriminate|reflexivity].
      * apply Hstop, H.
    + match type of H with
      | match ?e with _ => _ end = _ => destruct e eqn:E
      end.
      * inversion H; subst. apply Hstep; [discriminate|reflexivity].
      * apply Hstop, H.
Qed.

Lemma run_sound (r : regex) :
  forall st (k : mstate -> option A) x,
    run fl r st k = Some x ->
    exists st1, Match fl r st st1 /\ k st1 = Some x.
Proof.
  induction r as [ | p | neg items | a IHa b IHb | a IHa b IHb
                 | lo hi a IHa | n a IHa | | | ];
    intros st k x H; simpl in H.
  - exists st. split; [constructor|exact H].
  - destruct (rest st) as [|c t] eqn:E; [discriminate|].
    destruct (lit_match fl p c) eqn:L; [|discriminate].
    eexists. split; [eapply M_Lit; eauto|exact H].
  - destruct (rest st) as [|c t] eqn:E; [discriminate|].
    destruct (set_match fl neg items c) eqn:L; [|discriminate].
    eexists. split; [eapply M_Set; eauto|exact H].
  - apply IHa in H. destruct H as (st1 & Ha & H).
    apply IHb in H. destruct H as (st2 & Hb & H).
    exists st2. split; [econstructor; eauto|exact H].
  - destruct (run fl a st k) eqn:E.
    + inversion H; subst. apply IHa in E. destruct E as (st1 & Ha & Hk).
      exists st1. split; [apply M_AltL; exact Ha|exact Hk].
    + apply IHb in H. destruct H as (st1 & Hb & Hk).
      exists st1. split; [apply M_AltR; exact Hb|exact Hk].
  - apply rep_loop_sound with (fuel := S (length (rest st)));
      [exact IHa|exact H].
  - apply IHa in H. destruct H as (st1 & Ha & Hk).
    eexists. split; [apply M_Grp; exact Ha|exact Hk].
  - destruct (xorb (word_before st) (word_after st)) eqn:E; [|discriminate].
    exists st. split; [constructor; exact E|exact H].
  - destruct (at_bol fl st) eqn:E; [|discriminate].
    exists st. split; [constructor; exact E|exact H].
  - destruct (at_eol fl st) eqn:E; [|discriminate].
    exists st. split; [constructor; exact E|exact H].
Qed.

End Soundness.

(** ** What a match tells about the text *)

Lemma suffix_refl (s : text) : suffix s s.
Proof. exists []. reflexivity. Qed.

Lemma suffix_trans (a b c : text) : suffix a b -> suffix b c -> suffix a c.
Proof.
  intros [x Hx] [y Hy]. exists (y ++ x). subst. now rewrite app_assoc.
Qed.

Lemma suffix_app (m s : text) : suffix s (m ++ s).
Proof. exists m. reflexivity. Qed.

Lemma somewhere_false (f : text -> bool) (l s : text) :
  somewhere f l = false -> suffix s l -> f s = false.
Proof.
  intros H [skipped ->]. induction skipped as [|c sk IH]; simpl in H.
  - destruct s; simpl in H; now apply orb_false_iff in H.
  - apply orb_false_iff in H. destruct H as [_ H]. now apply IH.
Qed.

Lemma matched_span (st st1 : mstate) (m : text) :
  pre st1 = rev m ++ pre st -> matched st st1 = m.
Proof.
  intro H. unfold matched. rewrite H.
  rewrite length_app, length_rev.
  replace (length m + length (pre st) - length (pre st)) with (length (rev m))
    by (rewrite length_rev; lia).
  rewrite firstn_app, firstn_all, Nat.sub_diag. simpl.
  now rewrite app_nil_r, rev_involutive.
Qed.

Section MatchFacts.
Variable fl : flags.

(** A match consumes a piece [m] of the text, made of characters that the
    atoms of the pattern accept. *)
Lemma Match_span (r : regex) (st st1 : mstate) :
  Match fl r st st1 ->
  exists m, pre st1 = rev m ++ pre st /\ rest st = m ++ rest st1 /\
            forall P, alphabet fl P r -> Forall P m.
Proof.
  induction 1 as [ st | p st c t E L | neg items st c t E L
                 | a b st st1 st2 _ IHa _ IHb | a b st st1 _ IH
                 | a b st st1 _ IH | hi a st
                 | lo hi a st st1 st2 Hhi _ IHa _ IHr
                 | n a st st1 _ IH | st E | st E | st E ];
    try (exists []; repeat split; simpl; auto; fail).
  - exists [c]. repeat split; simpl; auto.
  - exists [c]. repeat split; simpl; auto.
  - destruct IHa as (m1 & P1 & R1 & A1). destruct IHb as (m2 & P2 & R2 & A2).
    exists (m1 ++ m2). repeat split.
    + rewrite P2, P1, rev_app_distr. now rewrite app_assoc.
    + rewrite R1, R2. now rewrite app_assoc.
    + intros P [Ha Hb]. apply Forall_app. split; auto.
  - destruct IH as (m & P1 & R1 & A1). exists m. repeat split; auto.
    intros P [Ha _]. auto.
  - destruct IH as (m & P1 & R1 & A1). exists m. repeat split; auto.
    intros P [_ Hb]. auto.
  - destruct IHa as (m1 & P1 & R1 & A1). destruct IHr as (m2 & P2 & R2 & A2).
    exists (m1 ++ m2). repeat split.
    + rewrite P2, P1, rev_app_distr. now rewrite app_assoc.
    + rewrite R1, R2. now rewrite app_assoc.
    + intros P Ha. apply Forall_app. split; auto.
  - destruct IH as (m & P1 & R1 & A1). exists m. repeat split; auto.
Qed.

Lemma Match_suffix (r : regex) (st st1 : mstate) :
  Match fl r st st1 -> suffix (rest st1) (rest st).
Proof.
  intro H. apply Match_span in H. destruct H as (m & _ & R & _).
  exists m. exact R.
Qed.

(** Groups over an alphabet stay over it. *)
Lemma Match_caps (P : char -> Prop) (r : regex) (st st1 : mstate) :
  Match fl r st st1 -> groups_over fl P r ->
  caps_over P st -> caps_over P st1.
Proof.
  induction 1 as [ st | p st c t E L | neg items st c t E L
                 | a b st st1 st2 _ IHa _ IHb | a b st st1 _ IH
                 | a b st st1 _ IH | hi a st
                 | lo hi a st st1 st2 Hhi _ IHa _ IHr
                 | n a st st1 Ha IH | st E | st E | st E ];
    simpl; intros G C; auto.
  - destruct G. auto.
  - destruct G. auto.
  - destruct G. auto.
  - destruct G as [Al G]. unfold caps_over. simpl. constructor.
    + simpl. apply Match_span in Ha. destruct Ha as (m & P1 & _ & A1).
      rewrite (matched_span st st1 m P1). auto.
    + apply IH; auto.
Qed.

Lemma scan_sound (r : regex) (before after : text) (st st1 : mstate) :
  scan fl r before after = Some (st, st1) ->
  Match fl r st st1 /\ caps st = [] /\ suffix (rest st) after.
Proof.
  revert before. induction after as [|c t IH]; intros before H; simpl in H.
  - destruct (run fl r _ _) eqn:E.
    + inversion H; subst. apply run_sound in E. destruct E as (s & M & K).
      inversion K; subst. repeat split; auto. apply suffix_refl.
    + discriminate.
  - destruct (run fl r _ _) eqn:E.
    + inversion H; subst. apply run_sound in E. destruct E as (s & M & K).
      inversion K; subst. repeat split; auto. apply suffix_refl.
    + apply IH in H. destruct H as (M & C & S). repeat split; auto.
      eapply suffix_trans; [exact S|]. exists [c]. reflexivity.
Qed.

(** No match anywhere, nothing found. *)
Lemma findall_from_nil (r : regex) (fuel : nat) (before after : text) :
  (forall st st1, suffix (rest st) after -> ~ Match fl r st st1) ->
  findall_from fuel fl r before after = [].
Proof.
  intro H. destruct fuel; simpl; [reflexivity|].
  destruct (scan fl r before after) as [[st st1]|] eqn:E; [|reflexivity].
  apply scan_sound in E. destruct E as (M & _ & S). elim (H st st1 S M).
Qed.

(** Every text that [re.findall] returns is over the alphabet of the
    groups. *)
Lemma findall_from_over (P : char -> Prop) (r : regex) :
  groups_over fl P r ->
  forall fuel before after g,
    In g (findall_from fuel fl r before after) -> Forall P g.
Proof.
  intros G fuel. induction fuel as [|fuel IH]; intros before after g H;
    simpl in H; [contradiction|].
  destruct (scan fl r before after) as [[st st1]|] eqn:E; [|contradiction].
  apply scan_sound in E. destruct E as (M & C & _).
  destruct H as [H|H].
  - subst g. unfold group_or_empty. simpl.
    assert (CO : caps_over P st1).
    { eapply Match_caps; eauto. unfold caps_over. rewrite C. constructor. }
    unfold caps_over in CO. clear - CO.
    induction (caps st1) as [|[m g] cs IHc]; simpl; [constructor|].
    inversion CO; subst. destruct (Nat.eqb m 1); auto.
  - destruct (length (rest st1) <? length (rest st)).
    + eapply IH; eauto.
    + destruct (rest st1); [contradiction|]. eapply IH; eauto.
Qed.

End MatchFacts.

(** ** The amount resolver does not raise

    The groups of the amount and bank patterns hold no space, so
    [_clean_amount] never reaches [parts[-1]] on them. *)

Lemma bind_ret_inv (A B : Type) (m : outcome A) (f : A -> outcome B) (b : B) :
  bind m f = Ret b -> exists a, m = Ret a /\ f a = Ret b.
Proof. destruct m; simpl; [eauto|discriminate]. Qed.

Lemma bind_ret_r (A : Type) (m : outcome A) : bind m (fun a => Ret a) = m.
Proof. destruct m; reflexivity. Qed.

Lemma amount_patterns_groups :
  Forall (groups_over icase not_space) amount_patterns.
Proof. repeat constructor; no_space_groups. Qed.

Lemma bank_patterns_groups :
  Forall (fun np => groups_over icase not_space (snd np)) bank_patterns.
Proof. repeat constructor; no_space_groups. Qed.

Lemma re_findall_over (P : char -> Prop) (r : regex) (s g : text) :
  groups_over icase P r -> In g (re_findall icase r s) -> Forall P g.
Proof. intros G H. eapply findall_from_over; eauto. Qed.

Lemma amount_matches_no_space (l m : text) :
  In m (amount_matches l) -> Forall not_space m.
Proof.
  unfold amount_matches. intro H. apply in_flat_map in H.
  destruct H as (p & Hp & Hm).
  pose proof amount_patterns_groups as G. rewrite Forall_forall in G.
  eapply re_findall_over; eauto.
Qed.

Lemma _clean_amount_no_space (m : text) :
  Forall not_space m -> exists v, _clean_amount m = Ret v.
Proof.
  intro H. unfold _clean_amount.
  assert (E : existsb (fun c => ceq c sp) m = false).
  { induction H as [|c m Hc _ IH]; simpl; [reflexivity|].
    unfold not_space in Hc. now rewrite Hc, IH. }
  rewrite E. simpl. eauto.
Qed.

Lemma clean_all_returns (ms : list text) :
  (forall m, In m ms -> Forall not_space m) ->
  exists vs, clean_all ms = Ret vs.
Proof.
  induction ms as [|m ms IH]; intro H; simpl; [eauto|].
  destruct (_clean_amount_no_space (H m (or_introl eq_refl))) as [v ->].
  destruct IH as [vs ->]; [intros; apply H; now right|].
  simpl. eauto.
Qed.

Lemma line_candidates_returns (pr : nat) (l : text) (i : nat) :
  exists cs, line_candidates pr l i = Ret cs.
Proof.
  unfold line_candidates.
  destruct (clean_all_returns (amount_matches l)) as [vs ->];
    [apply amount_matches_no_space|].
  simpl. eauto.
Qed.

Lemma strategy1_returns (lines : list text) :
  forall i, exists cs, strategy1 i lines = Ret cs.
Proof.
  induction lines as [|l tl IH]; intro i; simpl; [eauto|].
  destruct (_ && _); [|apply IH].
  destruct (line_candidates_returns
              (if contains (str "grand total") (lower_text l) ||
                  contains (str "net amount") (lower_text l)
               then 200 else 100) l i) as [same ->].
  simpl.
  assert (N : exists next,
             match tl with
             | next_line :: _ => line_candidates 90 next_line (S i)
             | [] => Ret []
             end = Ret next).
  { destruct tl; [eauto|apply line_candidates_returns]. }
  destruct N as [next ->]. simpl.
  destruct (IH (S i)) as [more ->]. simpl. eauto.
Qed.

Lemma strategy2_returns (t : text) : exists cs, strategy2 t = Ret cs.
Proof.
  unfold strategy2.
  match goal with
  | |- context [clean_all ?ms] => destruct (clean_all_returns ms) as [vs ->]
  end.
  - intros m H. apply in_flat_map in H. destruct H as (np & Hnp & Hm).
    destruct (existsb _ _); [|contradiction].
    pose proof bank_patterns_groups as G. rewrite Forall_forall in G.
    eapply re_findall_over; [apply (G np Hnp)|exact Hm].
  - simpl. eauto.
Qed.

Lemma all_amounts_returns (lines : list text) :
  exists vs, all_amounts lines = Ret vs.
Proof.
  induction lines as [|l tl [vs IH]]; simpl.
  - exists []. reflexivity.
  - destruct (any_in ignore_keywords (lower_text l)).
    + exists vs. exact IH.
    + destruct (clean_all_returns (amount_matches l)) as [ws ->];
        [apply amount_matches_no_space|].
      simpl. rewrite IH. simpl. eauto.
Qed.

Lemma strategy3_returns (lines : list text) :
  exists cs, strategy3 lines = Ret cs.
Proof.
  unfold strategy3. destruct (all_amounts_returns lines) as [vs ->].
  simpl. eauto.
Qed.

Lemma candidates_of_returns (t : text) : exists cs, candidates_of t = Ret cs.
Proof.
  unfold candidates_of.
  destruct (strategy1_returns (split_on nl t) 0) as [c1 ->]. simpl.
  destruct c1 as [|c c1].
  - destruct (strategy2_returns t) as [c2 ->]. simpl.
    destruct c2; [apply strategy3_returns|eauto].
  - simpl. eauto.
Qed.

Lemma extract_total_amount_returns (t : text) :
  exists a, extract_total_amount t = Ret a.
Proof.
  unfold extract_total_amount.
  destruct (candidates_of_returns t) as [cs ->]. simpl. eauto.
Qed.

Lemma two_passes_returns (first_pass : text) (raw_pass : option text) :
  exists t a, two_passes first_pass raw_pass = Ret (t, a).
Proof.
  unfold two_passes.
  destruct (extract_total_amount_returns first_pass) as [a ->]. simpl.
  destruct (no_amount a); [|eauto].
  destruct raw_pass as [text_raw|]; [|eauto].
  destruct (extract_total_amount text_raw); eauto.
Qed.

(** ** Selection among the candidates *)

Lemma first_of_max_bound (c : candidate) (cs : list candidate) :
  first_of_max c cs -> forall x, In x cs -> priority x <= priority c.
Proof.
  intros (b & a & -> & Hb & Ha) x H. apply in_app_or in H.
  destruct H as [H|[H|H]].
  - apply Hb in H. lia.
  - subst. lia.
  - auto.
Qed.

Lemma sort_by_priority_head (cs : list candidate) :
  match sort_by_priority cs with
  | [] => cs = []
  | c :: _ => first_of_max c cs
  end.
Proof.
  induction cs as [|x cs IH]; simpl; [reflexivity|].
  destruct (sort_by_priority cs) as [|c r]; simpl.
  - subst cs. exists [], []. repeat split; simpl; intros; contradiction.
  - destruct (priority x <? priority c) eqn:E.
    + apply Nat.ltb_lt in E. destruct IH as (b & a & -> & Hb & Ha).
      exists (x :: b), a. repeat split; auto.
      intros y [<-|H]; auto.
    + apply Nat.ltb_ge in E. exists [], cs. repeat split; auto.
      * intros y [].
      * intros y H. pose proof (first_of_max_bound IH y H). lia.
Qed.

(** ** The properties of the specification *)

(** C1, as the specification states it, fails: on the receipt of the
    scenario, recognised identically by both passes, the pipeline returns
    no transaction at all. *)
Lemma C1_counterexample :
  extract_transactions true cafe_receipt (Some cafe_receipt)
    {| year := 2024; month := 3; day := 12 |} = Ret [].
Proof. vm_compute. reflexivity. Qed.

(** C1 (as amended).  On the receipt ["ABC CAFE"; "Date: 12/03/2024";
    "Subtotal: 450.00"; "CGST: 20.00"; "Total: 495.00"] the amount
    resolver finds no amount (no amount shape matches 450.00, 20.00 or
    495.00, and 2024 is dropped as a year), so the pipeline returns an
    empty result, whether the second pass reads the same text or raises.
    On that text the date resolver gives "2024-03-12" and the type
    classifier gives "expense". *)
Theorem C1_cafe_receipt_yields_nothing :
  candidates_of cafe_receipt = Ret [] /\
  extract_total_amount cafe_receipt = Ret None /\
  (forall now, extract_transactions true cafe_receipt (Some cafe_receipt) now
               = Ret []) /\
  (forall now, extract_transactions true cafe_receipt None now = Ret []) /\
  (forall now, extract_date now cafe_receipt = str "2024-03-12") /\
  detect_transaction_type cafe_receipt (extract_description cafe_receipt)
    = str "expense".
Proof.
  repeat split; try intro now; vm_compute; reflexivity.
Qed.

Lemma line_candidates_priority (pr : nat) (l : text) (i : nat)
  (cs : list candidate) (c : candidate) :
  line_candidates pr l i = Ret cs -> In c cs -> priority c = pr.
Proof.
  unfold line_candidates. intros H Hc.
  apply bind_ret_inv in H. destruct H as (vs & _ & H).
  inversion H; subst cs. apply in_map_iff in Hc.
  destruct Hc as (mv & <- & _). reflexivity.
Qed.

Lemma strategy1_priority (lines : list text) :
  forall k cs c, strategy1 k lines = Ret cs -> In c cs -> priority c <= 200.
Proof.
  induction lines as [|l tl IH]; intros k cs c H Hc; cbn [strategy1] in H.
  - inversion H; subst. destruct Hc.
  - cbv zeta in H.
    destruct (any_in total_keywords (lower_text l) &&
              negb (any_in ignore_keywords (lower_text l))); [|eauto].
    apply bind_ret_inv in H. destruct H as (same & Hs & H).
    apply bind_ret_inv in H. destruct H as (next & Hn & H).
    apply bind_ret_inv in H. destruct H as (more & Hm & H).
    inversion H; subst cs.
    apply in_app_or in Hc. destruct Hc as [Hc|Hc];
      [|apply in_app_or in Hc; destruct Hc as [Hc|Hc]].
    + rewrite (@line_candidates_priority _ _ _ _ _ Hs Hc).
      destruct (_ || _); lia.
    + destruct tl as [|next_line tl']; [inversion Hn; subst; destruct Hc|].
      rewrite (@line_candidates_priority _ _ _ _ _ Hn Hc). lia.
    + eauto.
Qed.

(** The candidates of strategy 1 when a line "Grand Total 1200" comes
    after lines that do not ask for priority 200. *)
Lemma strategy1_grand_total (before after : list text) :
  Forall plain_total before ->
  forall k, exists cs_b cs_a,
    strategy1 k (before ++ grand_total_1200 :: after)
    = Ret (cs_b ++ {| amount := of_N 1200; priority := 200;
                      line := grand_total_1200;
                      line_index := Some (k + length before) |} :: cs_a) /\
    (forall c, In c cs_b -> priority c < 200).
Proof.
  induction 1 as [|b bs [Hb1 Hb2] _ IH]; intro k.
  - cbn [app strategy1 length]. rewrite Nat.add_0_r.
    change (any_in total_keywords (lower_text grand_total_1200) &&
            negb (any_in ignore_keywords (lower_text grand_total_1200)))
      with true.
    cbv iota zeta.
    change (contains (str "grand total") (lower_text grand_total_1200) ||
            contains (str "net amount") (lower_text grand_total_1200))
      with true.
    cbv iota.
    assert (HS : line_candidates 200 grand_total_1200 k
                = Ret [ {| amount := of_N 1200; priority := 200;
                           line := grand_total_1200;
                           line_index := Some k |} ])
      by (vm_compute; reflexivity).
    rewrite HS. cbn [bind].
    assert (N : exists next,
               match after with
               | next_line :: _ => line_candidates 90 next_line (S k)
               | [] => Ret []
               end = Ret next)
      by (destruct after; [eauto|apply line_candidates_returns]).
    destruct N as [next ->]. cbn [bind].
    destruct (strategy1_returns after (S k)) as [more ->]. cbn [bind].
    exists [], (next ++ more). split; [reflexivity|intros c []].
  - cbn [app strategy1 length]. cbv zeta.
    destruct (IH (S k)) as (cs_b & cs_a & E & P).
    rewrite Nat.add_succ_r. rewrite Nat.add_succ_l in E.
    destruct (any_in total_keywords (lower_text b) &&
              negb (any_in ignore_keywords (lower_text b))).
    + rewrite Hb1, Hb2. cbn [orb].
      destruct (line_candidates_returns 100 b k) as [same Hs]. rewrite Hs.
      cbn [bind].
      assert (N : exists next,
                 match bs ++ grand_total_1200 :: after with
                 | next_line :: _ => line_candidates 90 next_line (S k)
                 | [] => Ret []
                 end = Ret next /\
                 forall c, In c next -> priority c = 90).
      { destruct (bs ++ grand_total_1200 :: after) as [|nx tl].
        - exists []. split; [reflexivity|intros c []].
        - destruct (line_candidates_returns 90 nx (S k)) as [next Hn].
          exists next. split; [exact Hn|].
          intros c Hc. apply (@line_candidates_priority _ _ _ _ _ Hn Hc). }
      destruct N as (next & -> & Pn). cbn [bind].
      rewrite E. cbn [bind].
      exists (same ++ next ++ cs_b), cs_a. split.
      * now rewrite <- !app_assoc.
      * intros c Hc. apply in_app_or in Hc. destruct Hc as [Hc|Hc];
          [|apply in_app_or in Hc; destruct Hc as [Hc|Hc]].
        -- rewrite (@line_candidates_priority _ _ _ _ _ Hs Hc). lia.
        -- rewrite (Pn c Hc). lia.
        -- auto.
    + exists cs_b, cs_a. split; [exact E|exact P].
Qed.

(** The first candidate of the greatest priority is unique. *)
Lemma first_of_max_unique (c x : candidate) (cs : list candidate) :
  first_of_max c cs -> first_of_max x cs -> c = x.
Proof.
  intros (b & a & E & Hb & Ha) (b' & a' & E' & Hb' & Ha').
  rewrite E in E'. apply app_eq_app in E'.
  destruct E' as (l & [[E1 E2]|[E1 E2]]); destruct l as [|y l];
    simpl in E2; injection E2 as E2 E3; auto; subst y.
  - assert (I1 : In x b) by (rewrite E1; apply in_or_app; right; now left).
    assert (I2 : In c a') by (rewrite E3; apply in_or_app; right; now left).
    pose proof (Hb _ I1). pose proof (Ha' _ I2). lia.
  - assert (I1 : In c b') by (rewrite E1; apply in_or_app; right; now left).
    assert (I2 : In x a) by (rewrite E3; apply in_or_app; right; now left).
    pose proof (Hb' _ I1). pose proof (Ha _ I2). lia.
Qed.

Lemma grand_total_resolves (t : text) (before after : list text) :
  split_on nl t = before ++ grand_total_1200 :: after ->
  Forall plain_total before ->
  extract_total_amount t = Ret (Some (of_N 1200)).
Proof.
  intros L P.
  destruct (@strategy1_grand_total before after P 0) as (cs_b & cs_a & E & Pb).
  unfold extract_total_amount, candidates_of. rewrite L, E. cbn [bind].
  set (x := {| amount := of_N 1200; priority := 200;
               line := grand_total_1200;
               line_index := Some (0 + length before) |}) in *.
  assert (C : match cs_b ++ x :: cs_a with
              | [] => strategy2 t
              | _ :: _ => Ret (cs_b ++ x :: cs_a)
              end = Ret (cs_b ++ x :: cs_a))
    by (destruct cs_b; reflexivity).
  rewrite C. cbn [bind].
  assert (C' : match cs_b ++ x :: cs_a with
               | [] => strategy3 (before ++ grand_total_1200 :: after)
               | _ :: _ => Ret (cs_b ++ x :: cs_a)
               end = Ret (cs_b ++ x :: cs_a))
    by (destruct cs_b; reflexivity).
  rewrite C'. cbn [bind].
  pose proof (sort_by_priority_head (cs_b ++ x :: cs_a)) as H.
  destruct (sort_by_priority (cs_b ++ x :: cs_a)) as [|c r].
  - destruct cs_b; discriminate.
  - assert (X : first_of_max x (cs_b ++ x :: cs_a)).
    { exists cs_b, cs_a. split; [reflexivity|]. split; [exact Pb|].
      intros y Hy.
      apply (@strategy1_priority _ 0 _ y E).
      apply in_or_app. right. now right. }
    rewrite (@first_of_max_unique _ _ _ H X). reflexivity.
Qed.

(** C2, as the specification states it, fails: a text that contains the
    lines "Subtotal 900" and "Grand Total 1200" after a line
    "Net Amount 5000" resolves to 5000, the first candidate of priority
    200, not to 1200. *)
Lemma C2_counterexample :
  let t := unlines (map str ["Net Amount 5000"; "Subtotal 900";
                             "Grand Total 1200"]%string) in
  In (str "Subtotal 900") (split_on nl t) /\
  In (str "Grand Total 1200") (split_on nl t) /\
  extract_total_amount t = Ret (Some (of_N 5000)) /\
  extract_total_amount t <> Ret (Some (of_N 1200)).
Proof.
  vm_compute. repeat split; auto. discriminate.
Qed.

(** C2 (as amended).  For every recognised text the resolver returns
    without raising; when the cascade generated no candidate the result
    is "not found", otherwise it is the amount of the first candidate, in
    source order, among those of the greatest priority.  In particular
    every text in which no line before a line "Grand Total 1200" holds
    "grand total" or "net amount" resolves to 1200, as the text made of
    exactly the lines "Subtotal 900" and "Grand Total 1200", in either
    order. *)
Theorem C2_first_candidate_of_greatest_priority :
  (forall t, exists cs,
      candidates_of t = Ret cs /\
      match cs with
      | [] => extract_total_amount t = Ret None
      | _ :: _ => exists c, first_of_max c cs /\
                            extract_total_amount t = Ret (Some (amount c))
      end) /\
  (forall t before after,
      split_on nl t = before ++ grand_total_1200 :: after ->
      Forall plain_total before ->
      extract_total_amount t = Ret (Some (of_N 1200))) /\
  extract_total_amount
    (unlines (map str ["Subtotal 900"; "Grand Total 1200"]%string))
    = Ret (Some (of_N 1200)) /\
  extract_total_amount
    (unlines (map str ["Grand Total 1200"; "Subtotal 900"]%string))
    = Ret (Some (of_N 1200)).
Proof.
  split; [|split; [exact grand_total_resolves
                  |split; vm_compute; reflexivity]].
  intro t. destruct (candidates_of_returns t) as [cs E]. exists cs.
  split; [exact E|]. unfold extract_total_amount. rewrite E. simpl.
  pose proof (sort_by_priority_head cs) as H.
  destruct cs as [|c0 cs0].
  - reflexivity.
  - destruct (sort_by_priority (c0 :: cs0)) as [|c r]; [discriminate|].
    exists c. split; [exact H|reflexivity].
Qed.

(** "Subtotal 900", "Grand Total 1200", then "Net Amount 5000": the later
    candidate of priority 200 does not win. *)
Lemma C2_witness :
  let t := unlines (map str ["Subtotal 900"; "Grand Total 1200";
                             "Net Amount 5000"]%string) in
  split_on nl t = [str "Subtotal 900"] ++ grand_total_1200
                    :: [str "Net Amount 5000"] /\
  Forall plain_total [str "Subtotal 900"] /\
  extract_total_amount t = Ret (Some (of_N 1200)).
Proof.
  intro t.
  assert (L : split_on nl t = [str "Subtotal 900"] ++ grand_total_1200
                                :: [str "Net Amount 5000"])
    by (vm_compute; reflexivity).
  assert (P : Forall plain_total [str "Subtotal 900"])
    by (repeat constructor; vm_compute; reflexivity).
  split; [exact L|]. split; [exact P|].
  exact (proj1 (proj2 C2_first_candidate_of_greatest_priority) t _ _ L P).
Defined.

(** C3, as the specification states it, fails: in the text of the lines
    "Date 15/03/2024" and "Total 2024" the bare 2024, a whole number of
    the range 2000..2100, is selected as the amount. *)
Lemma C3_counterexample :
  is_integer (of_N 2024) = true /\
  dle (of_N 2000) (of_N 2024) = true /\ dle (of_N 2024) (of_N 2100) = true /\
  extract_total_amount
    (unlines (map str ["Date 15/03/2024"; "Total 2024"]%string))
    = Ret (Some (of_N 2024)).
Proof. vm_compute. repeat split; reflexivity. Qed.

(** C3 (as amended).  In the text of the lines "Date 15/03/2024" and
    "Total 2024" the only candidate is 2024, found on the "Total" line by
    strategy 1 at priority 100, and it is selected, as it is when written
    "2024.00": the exclusion of whole numbers of the range 2000..2100
    belongs to strategy 3 only.  There it drops a bare 2024 (the lines
    "Date 15/03/2024" and "2024" resolve to "not found") and keeps a value
    with a fraction such as 2024.50. *)
Theorem C3_year_exclusion_only_in_fallback :
  candidates_of (unlines (map str ["Date 15/03/2024"; "Total 2024"]%string))
    = Ret [ {| amount := of_N 2024; priority := 100;
               line := str "Total 2024"; line_index := Some 1 |} ] /\
  extract_total_amount
    (unlines (map str ["Date 15/03/2024"; "Total 2024"]%string))
    = Ret (Some (of_N 2024)) /\
  extract_total_amount
    (unlines (map str ["Date 15/03/2024"; "Total 2024.00"]%string))
    = Ret (Some (of_N 2024)) /\
  extract_total_amount
    (unlines (map str ["Date 15/03/2024"; "2024"]%string)) = Ret None /\
  keep3 (of_N 2024) = false /\
  keep3 {| mant := 20245; scale := 1 |} = true.
Proof. vm_compute. repeat split; reflexivity. Qed.

(** *** The transaction record *)

Lemma labelled_merchant_length (patterns : list regex) (t m : text) :
  labelled_merchant patterns t = Some m -> 3 < length m < 50.
Proof.
  induction patterns as [|p ps IH]; simpl; [discriminate|].
  destruct (re_search icase_multiline p t) as [mt|]; [|exact IH].
  destruct (_ && _) eqn:E; [|exact IH].
  intro H. inversion H; subst m.
  apply andb_true_iff in E. destruct E as [E1 E2].
  apply Nat.ltb_lt in E1, E2. lia.
Qed.

Lemma first_clean_line_length (lines : list text) (c : text) :
  first_clean_line lines = Some c -> 4 < length c <= 100.
Proof.
  induction lines as [|l ls IH]; simpl; [discriminate|].
  destruct (_ || _); [exact IH|].
  destruct (_ && _); [exact IH|].
  destruct (any_in ignore_keywords (lower_text l)); [exact IH|].
  destruct (4 <? length (squeeze_ws l)) eqn:E; [|exact IH].
  intro H. inversion H; subst c. apply Nat.ltb_lt in E.
  rewrite length_firstn. lia.
Qed.

Lemma known_merchant_length (t m : text) :
  known_merchant t = Some m -> 0 < length m <= 100.
Proof.
  unfold known_merchant. intro H. apply find_some in H. destruct H as [H _].
  assert (F : forallb (fun m => (0 <? length m) && (length m <=? 100))
                known_merchants = true) by (vm_compute; reflexivity).
  rewrite forallb_forall in F. specialize (F m H).
  apply andb_true_iff in F. destruct F as [F1 F2].
  apply Nat.ltb_lt in F1. apply Nat.leb_le in F2. split; [exact F1|exact F2].
Qed.

Lemma type_label_length (t m : text) :
  type_label t = Some m -> 0 < length m <= 100.
Proof.
  unfold type_label.
  destruct (find _ transaction_types) as [kv|] eqn:H; [|discriminate].
  intro E. inversion E; subst m.
  apply find_some in H. destruct H as [H _].
  assert (F : forallb (fun kv => (0 <? length (snd kv)) &&
                                 (length (snd kv) <=? 100))
                transaction_types = true) by (vm_compute; reflexivity).
  rewrite forallb_forall in F. specialize (F kv H).
  apply andb_true_iff in F. destruct F as [F1 F2].
  apply Nat.ltb_lt in F1. apply Nat.leb_le in F2. split; [exact F1|exact F2].
Qed.

Lemma extract_description_length (t : text) :
  0 < length (extract_description t) <= 100.
Proof.
  unfold extract_description.
  destruct (known_merchant t) eqn:K; [eapply known_merchant_length; eauto|].
  destruct (labelled_merchant merchant_patterns t) eqn:L.
  { apply labelled_merchant_length in L. lia. }
  destruct (first_clean_line _) eqn:F.
  { apply first_clean_line_length in F. lia. }
  destruct (type_label t) eqn:T; [eapply type_label_length; eauto|].
  vm_compute. split; repeat constructor.
Qed.

Lemma detect_transaction_type_cases (t description : text) :
  detect_transaction_type t description = str "income" \/
  detect_transaction_type t description = str "expense".
Proof.
  unfold detect_transaction_type. destruct (_ <? _); auto.
Qed.

Lemma positive_of_not_zero (v : decimal) :
  is_zero v = false -> dlt (of_N 0) v = true.
Proof.
  unfold is_zero, dlt, of_N, pow10. simpl. intro H.
  apply N.eqb_neq in H. apply N.ltb_lt. lia.
Qed.

(** C4.  Every call returns at most one transaction, and a transaction
    that is returned has an amount greater than 0, a description of 1 to
    100 characters, the type "income" or "expense", and a raw-text sample
    of at most 500 characters. *)
Theorem C4_transaction_invariants
  (opened : bool) (first_pass : text) (raw_pass : option text)
  (now : datetime) (txs : list transaction) :
  extract_transactions opened first_pass raw_pass now = Ret txs ->
  length txs <= 1 /\
  forall tx, In tx txs ->
    dlt (of_N 0) (tx_amount tx) = true /\
    tx_description tx <> [] /\
    length (tx_description tx) <= 100 /\
    (tx_type tx = str "income" \/ tx_type tx = str "expense") /\
    length (tx_raw_text tx) <= 500.
Proof.
  unfold extract_transactions.
  assert (Nil : length (@nil transaction) <= 1 /\
                forall tx, In tx (@nil transaction) ->
                  dlt (of_N 0) (tx_amount tx) = true /\
                  tx_description tx <> [] /\
                  length (tx_description tx) <= 100 /\
                  (tx_type tx = str "income" \/ tx_type tx = str "expense") /\
                  length (tx_raw_text tx) <= 500).
  { split; [simpl; lia|intros tx []]. }
  destruct opened; simpl; [|intro H; inversion H; subst; exact Nil].
  destruct (two_passes first_pass raw_pass) as [[t a]|e]; simpl;
    [|discriminate].
  destruct (is_empty t || (length (strip t) <? 5));
    [intro H; inversion H; subst; exact Nil|].
  destruct a as [v|]; [|intro H; inversion H; subst; exact Nil].
  destruct (is_zero v) eqn:Z; intro H; inversion H; subst; [exact Nil|].
  split; [simpl; lia|].
  intros tx [<-|[]]. cbn [tx_amount tx_description tx_type tx_raw_text].
  pose proof (extract_description_length t) as D.
  repeat split.
  - apply positive_of_not_zero, Z.
  - intro E. rewrite E in D. simpl in D. lia.
  - lia.
  - apply detect_transaction_type_cases.
  - rewrite length_firstn. lia.
Qed.

(** The text "Grand Total 1200" yields one transaction, with the invariants. *)
Lemma C4_witness :
  exists txs,
    extract_transactions true (str "Grand Total 1200") None
      {| year := 2024; month := 3; day := 12 |} = Ret txs /\
    length txs = 1 /\
    forall tx, In tx txs ->
      dlt (of_N 0) (tx_amount tx) = true /\
      tx_description tx <> [] /\
      length (tx_description tx) <= 100 /\
      (tx_type tx = str "income" \/ tx_type tx = str "expense") /\
      length (tx_raw_text tx) <= 500.
Proof.
  eexists. split; [vm_compute; reflexivity|].
  split; [reflexivity|].
  apply (C4_transaction_invariants true (str "Grand Total 1200") None
           {| year := 2024; month := 3; day := 12 |}).
  vm_compute. reflexivity.
Defined.

(** *** Too little text *)

(** C5, as the specification states it, fails: the text "Rs  5" has 3
    characters that are not white space, and the call returns a
    transaction; the source measures [len(text.strip())], which is 5. *)
Lemma C5_counterexample :
  non_whitespace (final_text (str "Rs  5") None) < 5 /\
  exists tx,
    extract_transactions true (str "Rs  5") None
      {| year := 2024; month := 3; day := 12 |} = Ret [tx].
Proof.
  split; [vm_compute; repeat constructor|].
  eexists. vm_compute. reflexivity.
Qed.

(** C5 (as amended).  If the final recognised text, after both passes and
    stripped of leading and trailing white space, has fewer than 5
    characters (white space inside the text counts), the call returns an
    empty result and raises nothing. *)
Theorem C5_short_text_yields_nothing
  (opened : bool) (first_pass : text) (raw_pass : option text)
  (now : datetime) :
  length (strip (final_text first_pass raw_pass)) < 5 ->
  extract_transactions opened first_pass raw_pass now = Ret [].
Proof.
  unfold final_text, extract_transactions.
  destruct (two_passes_returns first_pass raw_pass) as (t & a & ->).
  intro H. destruct opened; simpl; [|reflexivity].
  apply Nat.ltb_lt in H. rewrite H. now rewrite orb_true_r.
Qed.

(** First pass " ab ", second pass "x y": three characters once stripped. *)
Lemma C5_witness :
  length (strip (final_text (str " ab ") (Some (str "x y")))) < 5 /\
  extract_transactions true (str " ab ") (Some (str "x y"))
    {| year := 2024; month := 3; day := 12 |} = Ret [].
Proof.
  split; [vm_compute; repeat constructor|].
  apply (C5_short_text_yields_nothing true (str " ab ") (Some (str "x y"))
           {| year := 2024; month := 3; day := 12 |}).
  vm_compute. repeat constructor.
Defined.

(** *** Dates *)

Lemma digit_char_is_digit (n : nat) : is_digit (digit_char n) = true.
Proof.
  unfold is_digit, between, digit_char.
  pose proof (Nat.mod_upper_bound n 10).
  apply andb_true_iff. split; apply N.leb_le; lia.
Qed.

Lemma strftime_is_iso (dt : datetime) :
  1000 <= year dt -> is_iso (strftime dt) = true.
Proof.
  intro Y. unfold strftime, year_digits.
  destruct (year dt <? 10) eqn:E1; [apply Nat.ltb_lt in E1; lia|].
  destruct (year dt <? 100) eqn:E2; [apply Nat.ltb_lt in E2; lia|].
  destruct (year dt <? 1000) eqn:E3; [apply Nat.ltb_lt in E3; lia|].
  cbn [app is_iso forallb].
  rewrite !digit_char_is_digit. reflexivity.
Qed.

Lemma strptime_valid (s : text) (fmt : list directive) (dt : datetime) :
  strptime s fmt = Some dt -> valid_date dt = true.
Proof.
  unfold strptime.
  destruct (re_match icase (format_re fmt) s) as [found|]; [|discriminate].
  destruct (rest found); [|discriminate].
  destruct (first_some _) as [y|]; [|discriminate].
  destruct (first_some _) as [m|]; [|discriminate].
  destruct (group g_d (caps found)) as [ds|]; [|discriminate].
  destruct (valid_date _) eqn:V; [|discriminate].
  intro H. inversion H; subst. exact V.
Qed.

Lemma parse_date_valid (s : text) (dt : datetime) :
  parse_date s = Some dt -> valid_date dt = true.
Proof.
  unfold parse_date. induction date_formats as [|f fs IH]; simpl;
    [discriminate|].
  destruct (strptime s f) as [d0|] eqn:E; [|exact IH].
  intro H. inversion H; subst. eapply strptime_valid; eauto.
Qed.

Lemma extract_date_with_total (patterns : list regex) (now : datetime)
  (t : text) :
  exists dt, extract_date_with patterns now t = strftime dt /\
             (dt = now \/ valid_date dt = true).
Proof.
  induction patterns as [|p ps IH]; simpl; [eauto|].
  destruct (re_search icase p t) as [m|]; [|exact IH].
  destruct (parse_date (group0 m)) as [dt|] eqn:E; [|exact IH].
  exists dt. split; [reflexivity|]. right. eapply parse_date_valid; eauto.
Qed.

Lemma extract_date_with_fallback (patterns : list regex) (now : datetime)
  (t : text) :
  (forall p m, In p patterns -> re_search icase p t = Some m ->
               parse_date (group0 m) = None) ->
  extract_date_with patterns now t = strftime now.
Proof.
  induction patterns as [|p ps IH]; intro H; simpl; [reflexivity|].
  destruct (re_search icase p t) as [m|] eqn:E.
  - rewrite (H p m (or_introl eq_refl) E). apply IH.
    intros q mq Hq. apply H. now right.
  - apply IH. intros q mq Hq. apply H. now right.
Qed.

(** C6.  The date resolver is total, and it returns the current
    processing date when none of the date-shape patterns matches anywhere
    in the text.  But its result is not always of the form YYYY-MM-DD:
    the year is written without padding, so that "15/03/0100", a date of
    the year 100, gives "100-03-15".  The result is the rendering of a
    valid calendar date parsed from the text or of the current date, and
    it has the form YYYY-MM-DD when the year of that date has four
    digits. *)
Theorem C6_year_not_padded :
  (forall now, extract_date now (str "15/03/0100") = str "100-03-15") /\
  is_iso (str "100-03-15") = false /\
  (forall now t,
      exists dt, extract_date now t = strftime dt /\
                 (dt = now \/ valid_date dt = true) /\
                 (1000 <= year dt -> is_iso (extract_date now t) = true)) /\
  (forall now t,
      (forall p, In p date_patterns -> re_search icase p t = None) ->
      extract_date now t = strftime now).
Proof.
  split; [intro now; vm_compute; reflexivity|].
  split; [vm_compute; reflexivity|]. split.
  - intros now t. unfold extract_date.
    destruct (extract_date_with_total date_patterns now t) as (dt & E & V).
    exists dt. split; [exact E|]. split; [exact V|].
    intro Y. rewrite E. apply strftime_is_iso, Y.
  - intros now t H. apply extract_date_with_fallback.
    intros p m Hp Hm. rewrite (H p Hp) in Hm. discriminate.
Qed.

(** "Paid at the counter" holds no date shape. *)
Lemma C6_witness :
  (forall p, In p date_patterns ->
             re_search icase p (str "Paid at the counter") = None) /\
  extract_date {| year := 2024; month := 3; day := 12 |}
    (str "Paid at the counter") = str "2024-03-12".
Proof.
  assert (H : forall p, In p date_patterns ->
                        re_search icase p (str "Paid at the counter") = None).
  { intros p Hp.
    repeat (destruct Hp as [<-|Hp]; [vm_compute; reflexivity|]).
    destruct Hp. }
  split; [exact H|].
  exact (proj2 (proj2 (proj2 C6_year_not_padded))
           {| year := 2024; month := 3; day := 12 |}
           (str "Paid at the counter") H).
Defined.

(** C10.  A date-shape match that parses under none of the date formats
    is skipped without an error: the resolver goes on with the remaining
    patterns, and returns the current processing date when no pattern
    yields a match that parses.  "99/99/2024" matches the first pattern,
    parses under no format, and resolves to the current date; followed by
    "5 March 2024" it resolves to "2024-03-05". *)
Theorem C10_unparseable_match_skipped :
  (forall now t p ps m,
      re_search icase p t = Some m -> parse_date (group0 m) = None ->
      extract_date_with (p :: ps) now t = extract_date_with ps now t) /\
  (forall now t,
      (forall p m, In p date_patterns -> re_search icase p t = Some m ->
                   parse_date (group0 m) = None) ->
      extract_date now t = strftime now) /\
  (exists m, re_search icase (hd Eps date_patterns) (str "99/99/2024") = Some m /\
             group0 m = str "99/99/2024" /\ parse_date (group0 m) = None) /\
  (forall now, extract_date now (str "99/99/2024") = strftime now) /\
  (forall now, extract_date now (str "99/99/2024 or 5 March 2024")
               = str "2024-03-05").
Proof.
  split; [|split; [|split; [|split]]].
  - intros now t p ps m E P. simpl. now rewrite E, P.
  - intros now t H. apply extract_date_with_fallback, H.
  - eexists. split; [vm_compute; reflexivity|].
    split; vm_compute; reflexivity.
  - intro now. vm_compute. reflexivity.
  - intro now. vm_compute. reflexivity.
Qed.

(** "Bill 99/99/2024": one date shape, which does not parse. *)
Lemma C10_witness :
  (forall p m, In p date_patterns ->
               re_search icase p (str "Bill 99/99/2024") = Some m ->
               parse_date (group0 m) = None) /\
  extract_date {| year := 2024; month := 3; day := 12 |}
    (str "Bill 99/99/2024") = str "2024-03-12".
Proof.
  assert (H : forall p m, In p date_patterns ->
                re_search icase p (str "Bill 99/99/2024") = Some m ->
                parse_date (group0 m) = None).
  { intros p m Hp.
    repeat (destruct Hp as [<-|Hp];
            [intro E; vm_compute in E;
             first [discriminate E|injection E as <-; vm_compute; reflexivity]|]).
    destruct Hp. }
  split; [exact H|].
  exact (proj1 (proj2 C10_unparseable_match_skipped)
           {| year := 2024; month := 3; day := 12 |}
           (str "Bill 99/99/2024") H).
Defined.

(** *** The type classifier *)

Lemma score_count (keywords : list text) (t : text) :
  (forall k, In k keywords -> lower_text k = k) ->
  score keywords (lower_text t) = count_found keywords t.
Proof.
  unfold count_found, found_in.
  induction keywords as [|k ks IH]; intro H; simpl; [reflexivity|].
  rewrite (H k (or_introl eq_refl)).
  rewrite IH by (intros; apply H; now right).
  destruct (contains k (lower_text t)); reflexivity.
Qed.

Lemma income_keywords_lower (k : text) :
  In k income_keywords -> lower_text k = k.
Proof.
  intro H. repeat (destruct H as [<-|H]; [vm_compute; reflexivity|]).
  destruct H.
Qed.

Lemma expense_keywords_lower (k : text) :
  In k expense_keywords -> lower_text k = k.
Proof.
  intro H. repeat (destruct H as [<-|H]; [vm_compute; reflexivity|]).
  destruct H.
Qed.

(** The Kelvin sign is lower-cased to "k": "credit boo\u212aing" holds the
    income keyword "credit" and the expense keyword "booking". *)
Lemma kelvin_sign_booking :
  let t := str "credit boo" ++ 8490%N :: str "ing" in
  lower_text t = str "credit booking" /\
  detect_transaction_type t (str "Transaction") = str "expense".
Proof. split; vm_compute; reflexivity. Qed.

(** C7.  The type classifier returns "income" exactly when more income
    keywords than expense keywords occur in the text, letter case apart,
    and "expense" otherwise; it returns no third value, and a text with
    as many income as expense keywords is an expense. *)
Theorem C7_type_classifier (t description : text) :
  (detect_transaction_type t description = str "income" <->
   count_found expense_keywords t < count_found income_keywords t) /\
  (detect_transaction_type t description = str "expense" <->
   count_found income_keywords t <= count_found expense_keywords t) /\
  (detect_transaction_type t description = str "income" \/
   detect_transaction_type t description = str "expense") /\
  (count_found income_keywords t = count_found expense_keywords t ->
   detect_transaction_type t description = str "expense").
Proof.
  unfold detect_transaction_type.
  rewrite (score_count income_keywords t income_keywords_lower).
  rewrite (score_count expense_keywords t expense_keywords_lower).
  destruct (count_found expense_keywords t <? count_found income_keywords t)
    eqn:E.
  - apply Nat.ltb_lt in E. repeat split; auto; try lia.
    + intro H. vm_compute in H. discriminate.
  - apply Nat.ltb_ge in E. repeat split; auto; try lia.
    + intro H. vm_compute in H. discriminate.
Qed.

(** One expense keyword ("paid") and one income keyword ("received"). *)
Lemma C7_witness :
  count_found income_keywords (str "Paid, then RECEIVED")
    = count_found expense_keywords (str "Paid, then RECEIVED") /\
  detect_transaction_type (str "Paid, then RECEIVED") (str "Transaction")
    = str "expense".
Proof.
  assert (H : count_found income_keywords (str "Paid, then RECEIVED")
              = count_found expense_keywords (str "Paid, then RECEIVED"))
    by (vm_compute; reflexivity).
  split; [exact H|].
  exact (proj2 (proj2 (proj2 (C7_type_classifier
                                (str "Paid, then RECEIVED")
                                (str "Transaction")))) H).
Defined.

(** *** Amount cleaning *)

Lemma is_digit_48 (x : N) : (x < 10)%N -> is_digit (48 + x) = true.
Proof.
  intro H. unfold is_digit, between.
  apply andb_true_iff. split; apply N.leb_le; lia.
Qed.

Lemma digit_val_48 (x : N) : digit_val (48 + x) = x.
Proof. unfold digit_val. lia. Qed.

Lemma mod10_lt (n : N) : (n mod 10 < 10)%N.
Proof. apply N.mod_lt. discriminate. Qed.

Lemma num_of_acc (ds : text) (acc : N) :
  fold_left (fun a c => a * 10 + digit_val c)%N ds acc
  = (acc * pow10 (length ds) + num_of ds)%N.
Proof.
  unfold num_of, pow10. revert acc.
  induction ds as [|c ds IH]; intro acc; cbn [fold_left].
  - simpl. lia.
  - rewrite IH. rewrite (IH (0 * 10 + digit_val c)%N).
    cbn [length]. rewrite Nat2N.inj_succ, N.pow_succ_r'. lia.
Qed.

Lemma num_of_app (a b : text) :
  num_of (a ++ b) = (num_of a * pow10 (length b) + num_of b)%N.
Proof.
  unfold num_of at 1. rewrite fold_left_app. apply num_of_acc.
Qed.

Lemma num_of_snoc (a : text) (c : char) :
  num_of (a ++ [c]) = (num_of a * 10 + digit_val c)%N.
Proof.
  rewrite num_of_app. unfold pow10. cbn [length].
  change (num_of [c]) with (0 * 10 + digit_val c)%N.
  change (10 ^ N.of_nat 1)%N with 10%N. lia.
Qed.

Lemma rev_digits_digits (fuel : nat) (n : N) :
  all_digits (rev_digits fuel n).
Proof.
  revert n. induction fuel as [|f IH]; intro n; simpl; constructor.
  - apply is_digit_48, mod10_lt.
  - destruct (n <? 10)%N; [constructor|apply IH].
Qed.

Lemma rev_digits_num (fuel : nat) (n : N) :
  (n < 2 ^ N.of_nat fuel)%N -> num_of (rev (rev_digits fuel n)) = n.
Proof.
  revert n. induction fuel as [|f IH]; intros n H.
  - simpl in H. assert (n = 0%N) by lia. subst. reflexivity.
  - cbn [rev_digits rev]. rewrite num_of_snoc, digit_val_48.
    destruct (n <? 10)%N eqn:E.
    + apply N.ltb_lt in E. cbn [rev]. change (num_of []) with 0%N.
      rewrite N.mod_small by exact E. lia.
    + apply N.ltb_ge in E. rewrite IH.
      * pose proof (N.div_mod n 10). lia.
      * rewrite Nat2N.inj_succ, N.pow_succ_r' in H.
        apply N.Div0.div_lt_upper_bound. lia.
Qed.

Lemma digits_of_num (n : N) : num_of (digits_of n) = n.
Proof.
  unfold digits_of. apply rev_digits_num.
  rewrite Nat2N.inj_succ, N2Nat.id.
  destruct n as [|p]; [reflexivity|].
  apply N.log2_spec. reflexivity.
Qed.

Lemma digits_of_digits (n : N) : all_digits (digits_of n).
Proof.
  unfold digits_of, all_digits. apply Forall_rev. apply rev_digits_digits.
Qed.

Lemma digits_of_nonempty (n : N) : digits_of n <> [].
Proof.
  unfold digits_of. cbn [rev_digits]. intro H.
  apply (f_equal (@length char)) in H. rewrite length_rev in H.
  discriminate.
Qed.

Lemma rev_fixed_digits (k : nat) (n : N) : all_digits (rev_fixed k n).
Proof.
  revert n. induction k as [|k IH]; intro n; simpl; constructor.
  - apply is_digit_48, mod10_lt.
  - apply IH.
Qed.

Lemma rev_fixed_length (k : nat) (n : N) : length (rev_fixed k n) = k.
Proof. revert n. induction k as [|k IH]; intro n; simpl; auto. Qed.

Lemma rev_fixed_num (k : nat) (n : N) :
  num_of (rev (rev_fixed k n)) = (n mod pow10 k)%N.
Proof.
  revert n. induction k as [|k IH]; intro n.
  - unfold pow10. simpl. now rewrite N.mod_1_r.
  - cbn [rev_fixed rev]. rewrite num_of_snoc, digit_val_48, IH.
    unfold pow10. rewrite Nat2N.inj_succ, N.pow_succ_r'.
    rewrite N.Div0.mod_mul_r. lia.
Qed.

Lemma norm_canonical (m : N) (sc : nat) : canonical (norm m sc).
Proof.
  revert m. induction sc as [|sc IH]; intro m; simpl.
  - left. reflexivity.
  - destruct (m mod 10 =? 0)%N eqn:E; [apply IH|].
    right. simpl. now apply N.eqb_neq.
Qed.

Lemma float_of_canonical (s : text) (v : decimal) :
  float_of s = Some v -> canonical v.
Proof.
  unfold float_of. destruct (span_digits s) as [ip r].
  destruct r as [|c fp].
  - destruct ip; [discriminate|]. intro H. inversion H. left. reflexivity.
  - destruct (_ && _); [|discriminate]. intro H. inversion H.
    apply norm_canonical.
Qed.

Lemma _clean_amount_canonical (s : text) (v : decimal) :
  _clean_amount s = Ret (Some v) -> canonical v.
Proof.
  unfold _clean_amount. intro H.
  destruct (if existsb _ s then _ else _) as [a|e]; simpl in H;
    [|discriminate].
  inversion H as [E]. eapply float_of_canonical; eauto.
Qed.

Lemma filter_all (A : Type) (f : A -> bool) (l : list A) :
  Forall (fun x => f x = true) l -> filter f l = l.
Proof.
  induction 1 as [|x l Hx _ IH]; simpl; [reflexivity|].
  now rewrite Hx, IH.
Qed.

Lemma filter_none (A : Type) (f : A -> bool) (l : list A) :
  Forall (fun x => f x = false) l -> filter f l = [].
Proof.
  induction 1 as [|x l Hx _ IH]; simpl; [reflexivity|].
  now rewrite Hx, IH.
Qed.

Lemma existsb_none (A : Type) (f : A -> bool) (l : list A) :
  Forall (fun x => f x = false) l -> existsb f l = false.
Proof.
  induction 1 as [|x l Hx _ IH]; simpl; [reflexivity|].
  now rewrite Hx, IH.
Qed.

(** A digit is none of the characters that cleaning looks for. *)
Lemma digit_facts (c : char) :
  is_digit c = true ->
  ceq c sp = false /\ ceq c (chr ",") = false /\ ceq c (chr ".") = false.
Proof.
  unfold is_digit, between, ceq. intro H.
  apply andb_true_iff in H. destruct H as [H1 H2]. apply N.leb_le in H1, H2.
  repeat split; apply N.eqb_neq; vm_compute; intro E; subst c;
    vm_compute in H1, H2; auto.
Qed.

Lemma all_digits_impl (P : char -> Prop) (s : text) :
  (forall c, is_digit c = true -> P c) -> all_digits s -> Forall P s.
Proof. intros H F. eapply Forall_impl; [|exact F]. exact H. Qed.

Lemma span_digits_dot (ds fs : text) :
  all_digits ds -> span_digits (ds ++ chr "." :: fs) = (ds, chr "." :: fs).
Proof.
  induction 1 as [|c ds Hc _ IH]; [reflexivity|].
  cbn [span_digits app]. rewrite Hc, IH. reflexivity.
Qed.

(** Cleaning a positional decimal: digits, a dot, digits. *)
Lemma _clean_amount_positional (ds fs : text) :
  all_digits ds -> all_digits fs -> fs <> [] ->
  _clean_amount (ds ++ chr "." :: fs)
  = Ret (Some (norm (num_of (ds ++ fs)) (length fs))).
Proof.
  intros Hd Hf Hn.
  assert (Q : Forall (fun c => is_digit c = true \/ c = chr ".")
                (ds ++ chr "." :: fs)).
  { apply Forall_app. split; [|constructor; [now right|]];
      eapply all_digits_impl; eauto. }
  unfold _clean_amount.
  rewrite existsb_none.
  2:{ eapply Forall_impl; [|exact Q]. intros c [H| ->];
        [apply (digit_facts c H)|reflexivity]. }
  cbn [bind].
  rewrite filter_all.
  2:{ eapply Forall_impl; [|exact Q]. intros c [H| ->]; [|reflexivity].
      unfold set_match, set_in, item_in. simpl. now rewrite H. }
  unfold remove. rewrite filter_all.
  2:{ eapply Forall_impl; [|exact Q]. intros c [H| ->]; [|reflexivity].
      destruct (digit_facts c H) as (_ & E & _). now rewrite E. }
  assert (C : count (chr ".") (ds ++ chr "." :: fs) = 1).
  { unfold count. rewrite filter_app. cbn [filter].
    change (ceq (chr ".") (chr ".")) with true. cbv iota.
    rewrite !filter_none; [reflexivity| |];
      (eapply all_digits_impl; [|eassumption]);
      intros c H; apply (digit_facts c H). }
  rewrite C. cbv iota beta. change (1 <? 1) with false. cbv iota.
  unfold float_of. rewrite (span_digits_dot fs Hd).
  change (ceq (chr ".") (chr ".")) with true.
  assert (F : forallb is_digit fs = true)
    by (apply forallb_forall; apply Forall_forall; exact Hf).
  rewrite F.
  assert (L : Nat.eqb (length ds + length fs) 0 = false).
  { apply Nat.eqb_neq. destruct fs; [contradiction|]. simpl. lia. }
  rewrite L. reflexivity.
Qed.

Lemma pow10_pos (k : nat) : (pow10 k <> 0)%N.
Proof. unfold pow10. apply N.pow_nonzero. discriminate. Qed.

(** Cleaning the rendering of a value in lowest terms gives the value
    back. *)
Lemma _clean_amount_render (v : decimal) :
  canonical v -> _clean_amount (render v) = Ret (Some v).
Proof.
  destruct v as [m sc]. unfold canonical, render. cbn [mant scale].
  intro C. cbn [app].
  destruct sc as [|k].
  - rewrite _clean_amount_positional;
      [|apply digits_of_digits|repeat constructor|discriminate].
    rewrite num_of_snoc, digits_of_num. unfold pow10. simpl N.of_nat.
    rewrite N.pow_0_r, N.div_1_r. cbn [length norm].
    change (digit_val (chr "0")) with 0%N. rewrite N.add_0_r.
    rewrite N.Div0.mod_mul. cbn [N.eqb].
    rewrite N.div_mul by discriminate. reflexivity.
  - rewrite _clean_amount_positional;
      [ | apply digits_of_digits
        | apply Forall_rev, rev_fixed_digits
        | intro E; apply (f_equal (@length char)) in E;
          rewrite length_rev, rev_fixed_length in E; discriminate ].
    rewrite num_of_app, digits_of_num, rev_fixed_num.
    rewrite length_rev, rev_fixed_length.
    rewrite N.Div0.mod_mod.
    replace (m / pow10 (S k) * pow10 (S k) + m mod pow10 (S k))%N with m
      by (pose proof (N.div_mod m (pow10 (S k)) (pow10_pos (S k))); lia).
    cbn [norm]. destruct C as [C|C]; [discriminate|].
    apply N.eqb_neq in C. rewrite C. reflexivity.
Qed.

(** C8, as the specification states it, fails: "10000000000000000"
    cleans to 1e16, whose decimal rendering is "1e+16", and that cleans
    to 116; "0.00001" cleans to 1e-05, whose rendering "1e-05" cleans to
    105. *)
Lemma C8_counterexample :
  _clean_amount (str "10000000000000000")
    = Ret (Some (of_N 10000000000000000)) /\
  float_repr (of_N 10000000000000000) = str "1e+16" /\
  _clean_amount (str "1e+16") = Ret (Some (of_N 116)) /\
  _clean_amount (str "0.00001") = Ret (Some {| mant := 1; scale := 5 |}) /\
  float_repr {| mant := 1; scale := 5 |} = str "1e-05" /\
  _clean_amount (str "1e-05") = Ret (Some (of_N 105)).
Proof. repeat split; vm_compute; reflexivity. Qed.

(** C8 (as amended).  Cleaning tolerates the formats "₹1,234.56",
    "1,234.56 Rs" and "1.234.56": each cleans to 1234.56.  And cleaning
    is idempotent where a float is written in positional notation: when
    cleaning a string succeeds with a value v of at most fifteen
    significant digits that is zero or lies in [0.0001, 1e16), the
    decimal rendering of v is its positional notation, and cleaning it
    succeeds with v again. *)
Theorem C8_cleaning_idempotent_positional :
  _clean_amount (rupee :: str "1,234.56")
    = Ret (Some {| mant := 123456; scale := 2 |}) /\
  _clean_amount (str "1,234.56 Rs")
    = Ret (Some {| mant := 123456; scale := 2 |}) /\
  _clean_amount (str "1.234.56")
    = Ret (Some {| mant := 123456; scale := 2 |}) /\
  float_repr {| mant := 123456; scale := 2 |} = str "1234.56" /\
  forall s v, _clean_amount s = Ret (Some v) ->
              sig15 v -> positional v = true ->
              float_repr v = render v /\
              _clean_amount (float_repr v) = Ret (Some v).
Proof.
  do 4 (split; [vm_compute; reflexivity|]).
  intros s v H _ P. unfold float_repr. rewrite P.
  split; [reflexivity|].
  apply _clean_amount_render. eapply _clean_amount_canonical; eauto.
Qed.

(** "Rs. 2,470.00" cleans to 2470, rendered "2470.0". *)
Lemma C8_witness :
  _clean_amount (str "Rs. 2,470.00") = Ret (Some (of_N 2470)) /\
  sig15 (of_N 2470) /\ positional (of_N 2470) = true /\
  float_repr (of_N 2470) = str "2470.0" /\
  _clean_amount (float_repr (of_N 2470)) = Ret (Some (of_N 2470)).
Proof.
  assert (H : _clean_amount (str "Rs. 2,470.00") = Ret (Some (of_N 2470)))
    by (vm_compute; reflexivity).
  assert (D : sig15 (of_N 2470)) by (vm_compute; lia).
  assert (P : positional (of_N 2470) = true) by (vm_compute; reflexivity).
  split; [exact H|]. split; [exact D|]. split; [exact P|].
  split; [vm_compute; reflexivity|].
  exact (proj2 (proj2 (proj2 (proj2 (proj2 C8_cleaning_idempotent_positional)))
                  _ _ H D P)).
Defined.

(** *** Bare decimals and the amount shapes *)

Lemma digit_icase (c : char) :
  set_match icase false [Digits] c = true -> is_digit c = true.
Proof.
  unfold set_match, set_in, item_in, is_digit, lower, upper, between. simpl.
  rewrite !orb_false_r.
  destruct (N.leb 65 c) eqn:A; destruct (N.leb c 90) eqn:B;
  destruct (N.leb 97 c) eqn:C; destruct (N.leb c 122) eqn:D; simpl;
  rewrite ?orb_true_iff, ?andb_true_iff, ?N.leb_le;
  rewrite ?N.leb_le, ?N.leb_gt in *; intuition lia.
Qed.

Lemma lit_icase_symbol (p c : char) :
  between 65 90 p = false -> between 97 122 p = false ->
  lit_match icase p c = true -> c = p.
Proof.
  unfold lit_match, lower, between, ceq. simpl. intros Hp1 Hp2.
  rewrite Hp1.
  destruct (N.leb 65 c && N.leb c 90) eqn:A; intro H; apply N.eqb_eq in H.
  - apply andb_true_iff in A. destruct A as [A1 A2].
    apply N.leb_le in A1, A2.
    apply andb_false_iff in Hp2. rewrite !N.leb_gt in Hp2. lia.
  - exact H.
Qed.

Lemma text_re_starts (p : text) (st st1 : mstate) :
  Match icase (text_re p) st st1 -> starts_with_ci p (rest st) = true.
Proof.
  revert st. induction p as [|x p IH]; intros st H; simpl in *.
  - destruct (rest st); reflexivity.
  - do 2 inv_match.
    match goal with E : rest st = _ |- _ => rewrite E end.
    match goal with M : Match _ (text_re p) _ _ |- _ => apply IH in M; simpl in M; rewrite M end.
    match goal with L : lit_match _ _ _ = true |- _ => unfold lit_match in L; simpl in L; rewrite L end.
    reflexivity.
Qed.

Lemma marker_of_prefix (s : text) :
  starts_with_ci (str "Rs") s = true \/ starts_with_ci [rupee] s = true \/
  starts_with_ci (str "INR") s = true \/ starts_with_ci (str "rs") s = true ->
  marker_here s = true.
Proof.
  unfold marker_here. intros [H|[H|[H|H]]].
  - change (starts_with_ci (str "rs") s = true) in H. rewrite H. reflexivity.
  - rewrite H. apply orb_true_iff. left. apply orb_true_r.
  - change (starts_with_ci (str "inr") s = true) in H. rewrite H.
    apply orb_true_r.
  - rewrite H. reflexivity.
Qed.

(** The currency alternatives of the first two amount patterns. *)
Lemma currency_match (r : regex) (st st1 : mstate) :
  r = alts [Rs_dot; Lit rupee; lits "INR"; rs_dot] \/
  r = alts [Rs_dot; Lit rupee; lits "INR"] ->
  Match icase r st st1 -> marker_here (rest st) = true.
Proof.
  intros [->| ->] H; apply marker_of_prefix; cbn [alts] in H.
  - inv_match; [|inv_match; [|inv_match]].
    + unfold Rs_dot in *. inv_match. left. eapply text_re_starts; eauto.
    + right. left. inv_match.
      match goal with E : rest st = _ |- _ => rewrite E end. simpl.
      match goal with L : lit_match _ _ _ = true |- _ => unfold lit_match in L; simpl in L; rewrite L end.
      reflexivity.
    + right. right. left. eapply text_re_starts; eauto.
    + unfold rs_dot in *. inv_match. right. right. right.
      eapply text_re_starts; eauto.
  - inv_match; [|inv_match].
    + unfold Rs_dot in *. inv_match. left. eapply text_re_starts; eauto.
    + right. left. inv_match.
      match goal with E : rest st = _ |- _ => rewrite E end. simpl.
      match goal with L : lit_match _ _ _ = true |- _ => unfold lit_match in L; simpl in L; rewrite L end.
      reflexivity.
    + right. right. left. eapply text_re_starts; eauto.
Qed.

Lemma digits_alphabet (lo : nat) (hi : option nat) :
  alphabet icase (fun c => is_digit c = true) (Rep lo hi d).
Proof. simpl. exact digit_icase. Qed.

Lemma pattern1_marker (st st1 : mstate) :
  Match icase (nth 0 amount_patterns Eps) st st1 ->
  marker_here (rest st) = true.
Proof.
  cbn [nth amount_patterns seqs]. intro H. inv_seq.
  eapply currency_match; [left; reflexivity|eassumption].
Qed.

Lemma pattern2_marker (st st1 : mstate) :
  Match icase (nth 1 amount_patterns Eps) st st1 ->
  exists s, suffix s (rest st) /\ marker_here s = true.
Proof.
  cbn [nth amount_patterns seqs]. intro H. do 2 inv_seq.
  match goal with
  | G : Match _ (Grp _ _) st ?sa, S : Match _ (star _) ?sa ?sb,
    C : Match _ (Alt _ _) ?sb _ |- _ =>
      exists (rest sb); split;
      [ eapply suffix_trans; [eapply Match_suffix, S|eapply Match_suffix, G]
      | eapply currency_match; [right; reflexivity|exact C] ]
  end.
Qed.

Lemma digits_nonempty_span (hi : option nat) (st sa : mstate) :
  Match icase (Rep 1 hi d) st sa ->
  exists m x, rest st = m ++ x :: rest sa /\ is_digit x = true.
Proof.
  intro A.
  inversion A as [ | | | | | | | lo hi' a s0 s1 s2 _ D R | | | | ]; subst.
  apply Match_span in R. destruct R as (m2 & _ & R2 & F2).
  specialize (F2 _ (digits_alphabet _ _)).
  unfold d in D.
  inversion D as [ | | neg items s c1 t1 E1 L1 | | | | | | | | | ]; subst.
  simpl in R2.
  destruct (exists_last (l := c1 :: m2)) as (m' & x & Hm); [discriminate|].
  exists m', x. split.
  - rewrite E1, R2.
    change (c1 :: m2 ++ rest sa) with ((c1 :: m2) ++ rest sa).
    rewrite Hm, <- app_assoc. reflexivity.
  - assert (Fm : Forall (fun c => is_digit c = true) (c1 :: m2))
      by (constructor; [apply digit_icase, L1|exact F2]).
    rewrite Hm in Fm. apply Forall_app in Fm. destruct Fm as [_ Fm].
    inversion Fm; assumption.
Qed.

Lemma digit_first (lo : nat) (hi : option nat) (st sa : mstate) :
  Match icase (Rep (S lo) hi d) st sa ->
  exists c t s1, rest st = c :: t /\ is_digit c = true /\ rest s1 = t /\
                 Match icase (Rep lo (option_map Nat.pred hi) d) s1 sa.
Proof.
  intro A.
  inversion A as [ | | | | | | | lo' hi' a s0 s1 s2 _ D R | | | | ]; subst.
  unfold d in D.
  inversion D as [ | | neg items s c1 t1 E1 L1 | | | | | | | | | ]; subst.
  exists c1, t1, (advance st c1 t1). repeat split; auto.
  apply digit_icase, L1.
Qed.

Lemma comma_group_first (st sa : mstate) :
  Match icase (Rep 1 None (Seq (Lit (chr ",")) (Rep 3 (Some 3) d))) st sa ->
  exists c t, rest st = chr "," :: c :: t /\ is_digit c = true.
Proof.
  intro A.
  inversion A as [ | | | | | | | lo' hi' a s0 s1 s2 _ D R | | | | ]; subst.
  clear A R. inv_seq. inv_atom.
  match goal with
  | L : lit_match _ ?p ?c = true |- _ =>
      apply (@lit_icase_symbol p c eq_refl eq_refl) in L; subst
  end.
  match goal with
  | M : Match _ (Rep 3 _ _) _ _ |- _ =>
      apply digit_first in M; destruct M as (c' & t' & s' & E & Dc & _ & _)
  end.
  simpl in E. subst.
  match goal with E : rest st = _ |- _ => rewrite E end.
  eauto.
Qed.

Lemma pattern3_grouping (st st1 : mstate) :
  Match icase (nth 2 amount_patterns Eps) st st1 ->
  exists s, suffix s (rest st) /\ grouping_here s = true.
Proof.
  cbn [nth amount_patterns seqs]. unfold times, plus. intro H.
  inv_seq. inv_atom. inv_seq. inv_atom. do 2 inv_seq.
  match goal with
  | A : Match _ (Rep 1 (Some 3) d) ?s0 ?sa,
    B : Match _ (Rep 1 None _) ?sa _ |- _ =>
      apply digits_nonempty_span in A; destruct A as (m & x & E & Dx);
      apply comma_group_first in B; destruct B as (c & t & Ec & Dc);
      exists (x :: chr "," :: c :: t); split;
      [ exists m; rewrite E, Ec; reflexivity
      | simpl; rewrite Dx, Dc; reflexivity ]
  end.
Qed.

Lemma pattern4_digits (st st1 : mstate) :
  Match icase (nth 3 amount_patterns Eps) st st1 ->
  four_digits_here (rest st) = true.
Proof.
  cbn [nth amount_patterns seqs]. unfold at_least. intro H.
  inv_seq. inv_atom. inv_seq. inv_atom.
  match goal with
  | A : Match _ (Rep 4 None d) _ _ |- _ =>
      apply digit_first in A; destruct A as (c1 & t1 & s1 & E1 & D1 & R1 & A);
      apply digit_first in A; destruct A as (c2 & t2 & s2 & E2 & D2 & R2 & A);
      apply digit_first in A; destruct A as (c3 & t3 & s3 & E3 & D3 & R3 & A);
      apply digit_first in A; destruct A as (c4 & t4 & s4 & E4 & D4 & R4 & A)
  end.
  rewrite E1. rewrite R1 in E2. rewrite E2. rewrite R2 in E3. rewrite E3.
  rewrite R3 in E4. rewrite E4. simpl. now rewrite D1, D2, D3, D4.
Qed.

Lemma flat_map_nil (A B : Type) (f : A -> list B) (l : list A) :
  (forall x, In x l -> f x = []) -> flat_map f l = [].
Proof.
  induction l as [|x l IH]; intro H; simpl; [reflexivity|].
  rewrite (H x (or_introl eq_refl)), IH; [reflexivity|].
  intros; apply H; now right.
Qed.

(** No amount shape matches anywhere in a line of bare, short numbers. *)
Lemma bare_numbers_no_match (l : text) (p : regex) (st st1 : mstate) :
  bare_numbers l -> In p amount_patterns -> suffix (rest st) l ->
  ~ Match icase p st st1.
Proof.
  intros (Hm & Hg & Hd) Hp S M.
  destruct Hp as [<-|[<-|[<-|[<-|[]]]]].
  - apply pattern1_marker in M.
    rewrite (somewhere_false _ Hm S) in M. discriminate.
  - apply pattern2_marker in M. destruct M as (s & S' & M).
    rewrite (somewhere_false _ Hm (suffix_trans S' S)) in M. discriminate.
  - apply pattern3_grouping in M. destruct M as (s & S' & M).
    rewrite (somewhere_false _ Hg (suffix_trans S' S)) in M. discriminate.
  - apply pattern4_digits in M.
    rewrite (somewhere_false _ Hd S) in M. discriminate.
Qed.

Lemma amount_matches_bare (l : text) :
  bare_numbers l -> amount_matches l = [].
Proof.
  intro B. unfold amount_matches. apply flat_map_nil. intros p Hp.
  apply findall_from_nil. intros st st1 S.
  eapply bare_numbers_no_match; eauto.
Qed.

Lemma line_candidates_source (pr : nat) (l : text) (i : nat)
  (cs : list candidate) (c : candidate) :
  line_candidates pr l i = Ret cs -> In c cs ->
  line_index c = Some i /\ amount_matches l <> [].
Proof.
  unfold line_candidates. intros H Hc.
  apply bind_ret_inv in H. destruct H as (vs & Hv & H).
  inversion H; subst cs. apply in_map_iff in Hc.
  destruct Hc as (mv & <- & Hmv). split; [reflexivity|].
  intro E. rewrite E in Hv. simpl in Hv. inversion Hv; subst vs.
  destruct Hmv.
Qed.

(** A candidate of strategy 1 comes from a line with an amount match, and
    carries the index of that line. *)
Lemma strategy1_sources (lines : list text) :
  forall k cs c,
    strategy1 k lines = Ret cs -> In c cs ->
    exists j l, line_index c = Some (k + j) /\ nth_error lines j = Some l /\
                amount_matches l <> [].
Proof.
  induction lines as [|l tl IH]; intros k cs c H Hc; cbn [strategy1] in H.
  - inversion H; subst. destruct Hc.
  - cbv zeta in H.
    destruct (any_in total_keywords (lower_text l) &&
              negb (any_in ignore_keywords (lower_text l))).
    + apply bind_ret_inv in H. destruct H as (same & Hs & H).
      apply bind_ret_inv in H. destruct H as (next & Hn & H).
      apply bind_ret_inv in H. destruct H as (more & Hm & H).
      inversion H; subst cs.
      apply in_app_or in Hc. destruct Hc as [Hc|Hc];
        [|apply in_app_or in Hc; destruct Hc as [Hc|Hc]].
      * destruct (@line_candidates_source _ _ _ _ _ Hs Hc) as [I M].
        exists 0, l. rewrite Nat.add_0_r. auto.
      * destruct tl as [|next_line tl']; [inversion Hn; subst; destruct Hc|].
        destruct (@line_candidates_source _ _ _ _ _ Hn Hc) as [I M].
        exists 1, next_line. rewrite Nat.add_1_r. auto.
      * destruct (IH _ _ _ Hm Hc) as (j & l' & I & N & M).
        exists (S j), l'. rewrite Nat.add_succ_r. auto.
    + destruct (IH _ _ _ H Hc) as (j & l' & I & N & M).
      exists (S j), l'. rewrite Nat.add_succ_r. auto.
Qed.

Lemma all_amounts_skip (l : text) (before after : list text) :
  amount_matches l = [] ->
  all_amounts (before ++ l :: after) = all_amounts (before ++ after).
Proof.
  intro E. induction before as [|b bs IH]; cbn [all_amounts app].
  - destruct (any_in ignore_keywords (lower_text l)); [reflexivity|].
    rewrite E. simpl. apply bind_ret_r.
  - rewrite IH. reflexivity.
Qed.

Lemma digit_not_comma (c : char) : is_digit c = true -> ceq c (chr ",") = false.
Proof. intro H. apply (digit_facts c H). Qed.

(** **** No run of four digits *)

Lemma four_skip (c : char) (r : text) :
  is_digit c = false ->
  somewhere four_digits_here (c :: r) = somewhere four_digits_here r.
Proof.
  intro H. cbn [somewhere]. unfold four_digits_here at 1.
  destruct r as [|b [|c3 [|e r]]]; try reflexivity. now rewrite H.
Qed.

Lemma four_no_digits (s : text) :
  no_digits s -> somewhere four_digits_here s = false.
Proof.
  induction 1 as [|c s Hc _ IH]; [reflexivity|]. now rewrite four_skip.
Qed.

Lemma four_short_run (ds r : text) :
  length ds <= 3 ->
  (match r with [] => True | q :: _ => is_digit q = false end) ->
  somewhere four_digits_here (ds ++ r) = somewhere four_digits_here r.
Proof.
  intros L Q.
  assert (E : forall x y, somewhere four_digits_here (x :: y) =
                          four_digits_here (x :: y) || somewhere four_digits_here y)
    by reflexivity.
  destruct r as [|q r].
  - destruct ds as [|a [|b [|c [|e ds]]]]; simpl in L; try lia; reflexivity.
  - destruct ds as [|a [|b [|c [|e ds]]]]; simpl in L; try lia;
      cbn [app]; rewrite ?E; unfold four_digits_here;
      destruct r as [|r1 [|r2 [|r3 r]]];
      rewrite ?Q, ?andb_false_r; simpl; reflexivity.
Qed.

(** **** No comma grouping *)

Lemma grouping_skip (c : char) (r : text) :
  is_digit c = false ->
  somewhere grouping_here (c :: r) = somewhere grouping_here r.
Proof.
  intro H. cbn [somewhere]. unfold grouping_here at 1.
  destruct r as [|b [|c3 r]]; try reflexivity. now rewrite H.
Qed.

Lemma grouping_no_digits (s : text) :
  no_digits s -> somewhere grouping_here s = false.
Proof.
  induction 1 as [|c s Hc _ IH]; [reflexivity|]. now rewrite grouping_skip.
Qed.

Lemma grouping_digits (ds r : text) :
  all_digits ds ->
  (match r with
   | x :: y :: _ => ceq x (chr ",") = false \/ is_digit y = false
   | _ => True
   end) ->
  somewhere grouping_here (ds ++ r) = somewhere grouping_here r.
Proof.
  intros D Q. induction D as [|a ds Ha D IH]; [reflexivity|].
  cbn [app somewhere]. rewrite IH.
  replace (grouping_here (a :: ds ++ r)) with false; [reflexivity|].
  unfold grouping_here. destruct D as [|b ds Hb D]; cbn [app].
  - destruct r as [|x [|y r]]; try reflexivity.
    destruct Q as [Q|Q]; rewrite Q; now rewrite ?andb_false_r.
  - rewrite (digit_not_comma b Hb).
    destruct (ds ++ r); now rewrite ?andb_false_r.
Qed.

(** A line whose only number is a bare decimal of one to three integer
    digits and one to three fraction digits, and that holds no currency
    marker, is a line of bare, short numbers. *)
Lemma bare_decimal_line (before ip fp after : text) :
  no_digits before -> no_digits after ->
  all_digits ip -> all_digits fp ->
  1 <= length ip <= 3 -> 1 <= length fp <= 3 ->
  somewhere marker_here (before ++ ip ++ chr "." :: fp ++ after) = false ->
  bare_numbers (before ++ ip ++ chr "." :: fp ++ after).
Proof.
  intros Nb Na Di Df Li Lf M. split; [exact M|]. split.
  - assert (G : somewhere grouping_here (ip ++ chr "." :: fp ++ after) = false).
    { rewrite grouping_digits; [|exact Di|now destruct (fp ++ after); [|left]].
      rewrite grouping_skip by reflexivity.
      rewrite grouping_digits; [apply grouping_no_digits, Na|exact Df|].
      destruct Na as [|x after Hx Na]; [exact I|].
      destruct Na as [|y after Hy Na]; [exact I|]. now right. }
    clear M. induction Nb as [|c before Hc _ IH]; [exact G|].
    cbn [app]. now rewrite grouping_skip.
  - assert (G : somewhere four_digits_here (ip ++ chr "." :: fp ++ after) = false).
    { rewrite four_short_run; [|lia|reflexivity].
      rewrite four_skip by reflexivity.
      rewrite four_short_run; [apply four_no_digits, Na|lia|].
      destruct Na; [exact I|assumption]. }
    clear M. induction Nb as [|c before Hc _ IH]; [exact G|].
    cbn [app]. now rewrite four_skip.
Qed.

(** C9, as the specification states it, fails: the only number of the
    line "Paid 495.00" is a bare decimal with three integer digits, and
    the bank pattern of strategy 2 makes a candidate of it. *)
Lemma C9_counterexample :
  bare_numbers (str "Paid 495.00") /\
  strategy2 (str "Paid 495.00")
    = Ret [ {| amount := of_N 495; priority := 80; line := str "495.00";
               line_index := None |} ] /\
  extract_total_amount (str "Paid 495.00") = Ret (Some (of_N 495)).
Proof. repeat split; vm_compute; reflexivity. Qed.

(** C9 (as amended).  A line of ASCII characters that holds no currency
    marker ("rs" or "inr", letter case apart), no comma grouping (digit,
    comma, digit) and no run of four digits is matched by none of the
    four amount-shape patterns; so it contributes no candidate to
    strategy 1, on its own index or as the next line, and no amount to
    strategy 3.  Such is every line without currency marker whose only
    number is a bare decimal of one to three integer digits and one to
    three fraction digits, like "495.00" or "45.50".  (Strategy 2 uses
    the bank-statement patterns instead, and they do match such a number
    after a credit or debit word.) *)
Theorem C9_bare_decimal_unmatched :
  (forall l,
      ascii_text l -> bare_numbers l ->
      (forall p, In p amount_patterns -> re_findall icase p l = []) /\
      (forall pr i, line_candidates pr l i = Ret []) /\
      (forall lines i cs c,
          nth_error lines i = Some l -> strategy1 0 lines = Ret cs ->
          In c cs -> line_index c <> Some i) /\
      (forall before after,
          all_amounts (before ++ l :: after) = all_amounts (before ++ after))) /\
  (forall before ip fp after,
      no_digits before -> no_digits after ->
      all_digits ip -> all_digits fp ->
      1 <= length ip <= 3 -> 1 <= length fp <= 3 ->
      somewhere marker_here (before ++ ip ++ chr "." :: fp ++ after) = false ->
      bare_numbers (before ++ ip ++ chr "." :: fp ++ after)).
Proof.
  split; [|exact bare_decimal_line].
  intros l _ B. pose proof (amount_matches_bare B) as E. repeat split.
  - intros p Hp. apply findall_from_nil. intros st st1 S.
    eapply bare_numbers_no_match; eauto.
  - intros pr i. unfold line_candidates. rewrite E. reflexivity.
  - intros lines i cs c N H Hc I.
    destruct (@strategy1_sources _ _ _ _ H Hc) as (j & l' & I' & N' & M).
    rewrite I in I'. inversion I'; subst i. simpl in N.
    rewrite N in N'. inversion N'; subst l'. contradiction.
  - intros before after. apply all_amounts_skip, E.
Qed.

(** The line "Total: 495.00": the bare decimal 495.00 after "Total: ". *)
Lemma C9_witness :
  ascii_text (str "Total: 495.00") /\
  bare_numbers (str "Total: 495.00") /\
  (forall p, In p amount_patterns ->
             re_findall icase p (str "Total: 495.00") = []) /\
  (forall pr i, line_candidates pr (str "Total: 495.00") i = Ret []).
Proof.
  assert (B : bare_numbers (str "Total: 495.00")).
  { apply (proj2 C9_bare_decimal_unmatched
             (str "Total: ") (str "495") (str "00") []);
      try (repeat constructor; fail); try (vm_compute; reflexivity);
      simpl; lia. }
  assert (A : ascii_text (str "Total: 495.00"))
    by (repeat constructor).
  split; [exact A|]. split; [exact B|].
  split; [exact (proj1 (proj1 C9_bare_decimal_unmatched _ A B))
         |exact (proj1 (proj2 (proj1 C9_bare_decimal_unmatched _ A B)))].
Defined.

(** ** Further properties of the code *)

(** *** Amount cleaning: the uncaught exception and the last group *)

Lemma split_ws_aux_nil (s cur : text) :
  split_ws_aux cur s = [] <-> cur = [] /\ blank s.
Proof.
  revert cur. induction s as [|c s IH]; intro cur; simpl.
  - destruct cur; split.
    + intros _. split; [reflexivity|constructor].
    + reflexivity.
    + discriminate.
    + intros [H _]. discriminate.
  - destruct (is_space c) eqn:E.
    + destruct cur as [|x cur].
      * rewrite IH. split; intros [H1 H2]; split; auto.
        -- constructor; auto.
        -- inversion H2; auto.
      * split; [discriminate|intros [H _]; discriminate].
    + rewrite IH. split.
      * intros [H _]. discriminate.
      * intros [_ H]. inversion H; subst. congruence.
Qed.

Lemma split_ws_nil (s : text) : split_ws s = [] <-> blank s.
Proof.
  unfold split_ws. rewrite split_ws_aux_nil. tauto.
Qed.

Lemma split_ws_aux_no_space (s cur : text) :
  no_space cur -> Forall no_space (split_ws_aux cur s).
Proof.
  revert cur. induction s as [|c s IH]; intros cur H; simpl.
  - destruct cur; repeat constructor.
    apply Forall_rev in H. exact H.
  - destruct (is_space c) eqn:E.
    + destruct cur as [|x cur].
      * apply IH. constructor.
      * constructor; [apply Forall_rev in H; exact H|apply IH; constructor].
    + apply IH. constructor; assumption.
Qed.

Lemma split_ws_no_space (s : text) : Forall no_space (split_ws s).
Proof. apply split_ws_aux_no_space. constructor. Qed.

Lemma has_space_iff (s : text) :
  existsb (fun c => ceq c sp) s = true <-> In sp s.
Proof.
  rewrite existsb_exists. split.
  - intros (c & H & E). apply N.eqb_eq in E. now subst.
  - intro H. exists sp. split; [exact H|apply N.eqb_refl].
Qed.

Lemma no_space_no_sp (s : text) :
  no_space s -> existsb (fun c => ceq c sp) s = false.
Proof.
  intro H. apply existsb_none. eapply Forall_impl; [|exact H].
  intros c Hc. destruct (ceq c sp) eqn:E; [|reflexivity].
  apply N.eqb_eq in E. subst. discriminate.
Qed.

(** X1: [_clean_amount] raises exactly on the strings that hold a space and
    nothing but white space. *)
Theorem clean_amount_raises_iff (s : text) :
  (_clean_amount s = Raise IndexError <-> In sp s /\ blank s) /\
  (~ (In sp s /\ blank s) -> exists v, _clean_amount s = Ret v).
Proof.
  unfold _clean_amount.
  destruct (existsb (fun c => ceq c sp) s) eqn:E.
  - apply has_space_iff in E.
    destruct (rev (split_ws s)) as [|lp ps] eqn:R.
    + assert (B : blank s).
      { apply split_ws_nil. apply (f_equal (@rev text)) in R.
        now rewrite rev_involutive in R. }
      split; [split; auto|]. intro H. elim H. auto.
    + assert (B : ~ blank s).
      { intro B. apply split_ws_nil in B. rewrite B in R. discriminate. }
      destruct (re_match plain last_part_pattern (remove (chr ",") lp));
        cbn [bind]; (split; [split; [discriminate|tauto]|eauto]).
  - cbn [bind]. split; [|eauto]. split; [discriminate|].
    intros [H _]. apply has_space_iff in H. congruence.
Qed.

(** Two spaces raise; "12" does not. *)
Lemma clean_amount_raises_iff_witness :
  _clean_amount (str "  ") = Raise IndexError /\
  exists v, _clean_amount (str "12") = Ret v.
Proof.
  split.
  - apply (proj1 (clean_amount_raises_iff (str "  "))). split.
    + left. reflexivity.
    + repeat constructor.
  - apply (proj2 (clean_amount_raises_iff (str "12"))).
    intros [[H|[H|[]]] _]; discriminate H.
Defined.

(** X2: when the string holds a space and its last group has the shape of a
    number, only that group is cleaned. *)
Theorem clean_amount_last_group (s : text) (groups : list text) (last_part : text) :
  In sp s ->
  split_ws s = groups ++ [last_part] ->
  re_match plain last_part_pattern (remove (chr ",") last_part) <> None ->
  _clean_amount s = _clean_amount last_part.
Proof.
  intros H S M. unfold _clean_amount.
  apply has_space_iff in H. rewrite H, S, rev_app_distr. cbn [rev app].
  destruct (re_match plain last_part_pattern (remove (chr ",") last_part));
    [|contradiction].
  assert (N : no_space last_part).
  { pose proof (split_ws_no_space s) as F. rewrite S in F.
    apply Forall_app in F. destruct F as [_ F]. now inversion F. }
  rewrite (no_space_no_sp N). reflexivity.
Qed.

Lemma clean_amount_last_group_witness :
  In sp (str "2 470.00") /\
  _clean_amount (str "2 470.00") = _clean_amount (str "470.00") /\
  _clean_amount (str "2 470.00") = Ret (Some (of_N 470)).
Proof.
  assert (H : In sp (str "2 470.00")) by (vm_compute; auto).
  split; [exact H|]. split; [|vm_compute; reflexivity].
  apply (@clean_amount_last_group (str "2 470.00") [str "2"] (str "470.00") H).
  - vm_compute. reflexivity.
  - vm_compute. discriminate.
Defined.

(** *** The levels of the candidates *)

Lemma strategy1_levels (lines : list text) :
  forall k cs c, strategy1 k lines = Ret cs -> In c cs ->
                 In (priority c) [200; 100; 90].
Proof.
  induction lines as [|l tl IH]; intros k cs c H Hc; cbn [strategy1] in H.
  - inversion H; subst. destruct Hc.
  - cbv zeta in H.
    destruct (any_in total_keywords (lower_text l) &&
              negb (any_in ignore_keywords (lower_text l))); [|eauto].
    apply bind_ret_inv in H. destruct H as (same & Hs & H).
    apply bind_ret_inv in H. destruct H as (next & Hn & H).
    apply bind_ret_inv in H. destruct H as (more & Hm & H).
    inversion H; subst cs.
    apply in_app_or in Hc. destruct Hc as [Hc|Hc];
      [|apply in_app_or in Hc; destruct Hc as [Hc|Hc]].
    + rewrite (@line_candidates_priority _ _ _ _ _ Hs Hc).
      destruct (_ || _); simpl; auto.
    + destruct tl as [|next_line tl']; [inversion Hn; subst; destruct Hc|].
      rewrite (@line_candidates_priority _ _ _ _ _ Hn Hc). simpl. auto.
    + eauto.
Qed.

Lemma strategy2_level (t : text) (cs : list candidate) (c : candidate) :
  strategy2 t = Ret cs -> In c cs -> priority c = 80.
Proof.
  unfold strategy2. intros H Hc.
  apply bind_ret_inv in H. destruct H as (vs & _ & H).
  inversion H; subst cs. apply in_map_iff in Hc.
  destruct Hc as (mv & <- & _). reflexivity.
Qed.

Lemma all_amounts_kept (lines : list text) :
  forall vs, all_amounts lines = Ret vs -> Forall (fun v => keep3 v = true) vs.
Proof.
  induction lines as [|l tl IH]; intros vs H; cbn [all_amounts] in H.
  - inversion H. constructor.
  - destruct (any_in ignore_keywords (lower_text l)); [auto|].
    apply bind_ret_inv in H. destruct H as (ws & _ & H).
    apply bind_ret_inv in H. destruct H as (more & Hm & H).
    inversion H; subst vs. apply Forall_app. split; [|auto].
    apply Forall_forall. intros v Hv. apply filter_In in Hv. tauto.
Qed.

Lemma max_of_in (x : decimal) (xs : list decimal) : In (max_of x xs) (x :: xs).
Proof.
  unfold max_of. revert x. induction xs as [|y ys IH]; intro x; cbn [fold_left].
  - now left.
  - destruct (dlt x y).
    + right. apply IH.
    + destruct (IH x) as [H|H]; [left; exact H|right; right; exact H].
Qed.

Lemma strategy3_level (lines : list text) (cs : list candidate) :
  strategy3 lines = Ret cs ->
  cs = [] \/
  exists c, cs = [c] /\ priority c = 50 /\ line_index c = None /\
            keep3 (amount c) = true.
Proof.
  unfold strategy3. intro H.
  apply bind_ret_inv in H. destruct H as (vs & Hv & H).
  inversion H; subst cs. destruct vs as [|x xs]; [now left|].
  right. eexists. repeat split.
  cbn [amount]. apply all_amounts_kept in Hv.
  rewrite Forall_forall in Hv. apply Hv, max_of_in.
Qed.

(** X3: the candidates of a text are of one level, and the fallback level
    holds one amount, greater than 1 and no whole number of 2000..2100. *)
Theorem candidates_one_level (t : text) (cs : list candidate) :
  candidates_of t = Ret cs -> one_level cs.
Proof.
  unfold candidates_of. intro H.
  apply bind_ret_inv in H. destruct H as (c1 & H1 & H).
  apply bind_ret_inv in H. destruct H as (c2 & H2 & H).
  destruct c1 as [|x c1].
  - destruct c2 as [|y c2].
    + apply strategy3_level in H. destruct H as [->|H].
      * left. intros c [].
      * right. right. exact H.
    + inversion H; subst cs. right. left.
      intros c Hc. eapply strategy2_level; eauto.
  - inversion H2; subst c2. inversion H; subst cs. left.
    intros c Hc. eapply strategy1_levels; eauto.
Qed.

(** "Paid 495.00" gives one candidate, at the level of the bank patterns. *)
Lemma candidates_one_level_witness :
  exists cs, candidates_of (str "Paid 495.00") = Ret cs /\ one_level cs.
Proof.
  eexists. split; [vm_compute; reflexivity|].
  apply (@candidates_one_level (str "Paid 495.00")).
  vm_compute. reflexivity.
Defined.

(** X4: when no keyword line and no bank pattern gives a candidate, an amount
    that is resolved is greater than 1 and is no whole number of
    2000..2100. *)
Theorem fallback_amount_plausible (t : text) (a : decimal) :
  strategy1 0 (split_on nl t) = Ret [] ->
  strategy2 t = Ret [] ->
  extract_total_amount t = Ret (Some a) ->
  dlt (of_N 1) a = true /\
  (is_integer a = true -> dlt a (of_N 2000) = true \/ dlt (of_N 2100) a = true).
Proof.
  intros H1 H2 H. unfold extract_total_amount, candidates_of in H.
  rewrite H1 in H. cbn [bind] in H. rewrite H2 in H. cbn [bind] in H.
  apply bind_ret_inv in H. destruct H as (cs & H3 & H).
  apply strategy3_level in H3. destruct H3 as [->|(c & -> & _ & _ & K)].
  - discriminate.
  - cbn in H. inversion H; subst a. unfold keep3 in K.
    apply andb_true_iff in K. destruct K as [K1 K2]. split; [exact K1|].
    intro I. rewrite I in K2. cbn [andb] in K2. unfold dle in K2.
    destruct (dlt (amount c) (of_N 2000)); [now left|].
    destruct (dlt (of_N 2100) (amount c)); [now right|discriminate].
Qed.

(** "Rs  5" is resolved by the fallback. *)
Lemma fallback_amount_plausible_witness :
  extract_total_amount (str "Rs  5") = Ret (Some (of_N 5)) /\
  dlt (of_N 1) (of_N 5) = true /\
  (is_integer (of_N 5) = true ->
   dlt (of_N 5) (of_N 2000) = true \/ dlt (of_N 2100) (of_N 5) = true).
Proof.
  split; [vm_compute; reflexivity|].
  apply (@fallback_amount_plausible (str "Rs  5") (of_N 5));
    vm_compute; reflexivity.
Defined.

(** *** The texts that the groups of a pattern capture *)

Section GroupTexts.
Variable fl : flags.
Variable Q : text -> Prop.

Lemma Match_caps_sat (r : regex) (st st1 : mstate) :
  Match fl r st st1 -> groups_sat fl Q r ->
  Forall (fun ng => Q (snd ng)) (caps st) ->
  Forall (fun ng => Q (snd ng)) (caps st1).
Proof.
  induction 1 as [ st | p st c t E L | neg items st c t E L
                 | a b st st1 st2 _ IHa _ IHb | a b st st1 _ IH
                 | a b st st1 _ IH | hi a st
                 | lo hi a st st1 st2 Hhi _ IHa _ IHr
                 | n a st st1 Ha IH | st E | st E | st E ];
    simpl; intros G C; auto.
  - destruct G. auto.
  - destruct G. auto.
  - destruct G. auto.
  - destruct G as [Al G]. constructor; [simpl; auto|apply IH; auto].
Qed.

Lemma findall_from_sat (r : regex) :
  groups_sat fl Q r -> Q [] ->
  forall fuel before after g,
    In g (findall_from fuel fl r before after) -> Q g.
Proof.
  intros G Q0 fuel. induction fuel as [|fuel IH]; intros before after g H;
    simpl in H; [contradiction|].
  destruct (scan fl r before after) as [[st st1]|] eqn:E; [|contradiction].
  apply scan_sound in E. destruct E as (M & C & _).
  destruct H as [H|H].
  - subst g. unfold group_or_empty. simpl.
    assert (CO : Forall (fun ng => Q (snd ng)) (caps st1)).
    { eapply Match_caps_sat; eauto. rewrite C. constructor. }
    clear - CO Q0.
    induction (caps st1) as [|[m g] cs IHc]; simpl; [exact Q0|].
    inversion CO; subst. destruct (Nat.eqb m 1); auto.
  - destruct (length (rest st1) <? length (rest st)).
    + eapply IH; eauto.
    + destruct (rest st1); [contradiction|]. eapply IH; eauto.
Qed.

End GroupTexts.

(** The text of a match, read off the two positions. *)
Lemma Match_text (fl : flags) (r : regex) (st st1 : mstate) :
  Match fl r st st1 ->
  rest st = matched st st1 ++ rest st1 /\
  pre st1 = rev (matched st st1) ++ pre st /\
  forall P, alphabet fl P r -> Forall P (matched st st1).
Proof.
  intro M. apply Match_span in M. destruct M as (m & P1 & R1 & A).
  rewrite (matched_span st st1 m P1). auto.
Qed.

Lemma matched_seq (fl : flags) (a b : regex) (st st1 st2 : mstate) :
  Match fl a st st1 -> Match fl b st1 st2 ->
  matched st st2 = matched st st1 ++ matched st1 st2.
Proof.
  intros Ma Mb.
  destruct (Match_text Ma) as (_ & Pa & _).
  destruct (Match_text Mb) as (_ & Pb & _).
  apply matched_span. rewrite Pb, Pa, rev_app_distr. now rewrite app_assoc.
Qed.

Lemma digit_or_comma_digits :
  alphabet icase digit_or_comma d.
Proof. simpl. intros c H. left. apply digit_icase, H. Qed.

Lemma digit_or_comma_group :
  alphabet icase digit_or_comma (Seq (Lit (chr ",")) (times 3 3 d)).
Proof.
  simpl. split.
  - intros c H. right. apply lit_icase_symbol in H; auto.
  - exact digit_or_comma_digits.
Qed.

(** [\d{2}] matches two digits. *)
Lemma two_digits (st st1 : mstate) :
  Match icase (times 2 2 d) st st1 ->
  exists d1 d2, matched st st1 = [d1; d2] /\
                is_digit d1 = true /\ is_digit d2 = true.
Proof.
  intro M. destruct (Match_text M) as (R & _ & _).
  unfold times in M.
  apply digit_first in M. destruct M as (c1 & t1 & s1 & E1 & D1 & R1 & M).
  apply digit_first in M. destruct M as (c2 & t2 & s2 & E2 & D2 & R2 & M).
  exists c1, c2. repeat split; auto.
  assert (s2 = st1).
  { simpl in M.
    inversion M as [ | | | | | | hi a s | lo hi a s0 s3 s4 Hhi | | | | ];
      subst; [reflexivity|congruence]. }
  subst s2. subst t1 t2. rewrite E2 in E1.
  rewrite E1 in R. change (c1 :: c2 :: rest st1) with ([c1; c2] ++ rest st1) in R.
  apply app_inv_tail in R. now symmetry.
Qed.

(** [(?:\.\d{2})?] matches nothing, or a dot and two digits. *)
Lemma optional_cents (st st1 : mstate) :
  Match icase (opt (Seq (Lit (chr ".")) (times 2 2 d))) st st1 ->
  matched st st1 = [] \/
  exists d1 d2, matched st st1 = [chr "."; d1; d2] /\
                is_digit d1 = true /\ is_digit d2 = true.
Proof.
  intro M. unfold opt in M.
  inversion M as [ | | | | | | hi a s | lo hi a s0 s1 s2 Hhi Ma Mr | | | | ];
    subst.
  - left. apply matched_span. reflexivity.
  - right. simpl in Mr.
    assert (s1 = st1).
    { inversion Mr as [ | | | | | | hi a s | lo hi a s0 s3 s4 Hhi' | | | | ];
        subst; [reflexivity|congruence]. }
    subst s1. clear Mr.
    inversion Ma as [ | | | a b s0 s1 s2 Ml Md | | | | | | | | ]; subst.
    rewrite (matched_seq Ml Md).
    destruct (two_digits Md) as (d1 & d2 & -> & D1 & D2).
    assert (matched st s1 = [chr "."]).
    { inversion Ml as [ | p s c t E L | | | | | | | | | | ]; subst.
      apply lit_icase_symbol in L; [|reflexivity|reflexivity]. subst c.
      apply matched_span. reflexivity. }
    rewrite H. exists d1, d2. auto.
Qed.

Lemma grouped_number_shape (st st1 : mstate) :
  Match icase grouped_number st st1 -> money_shape (matched st st1).
Proof.
  unfold grouped_number. cbn [seqs]. intro M.
  inversion M as [ | | | a b s0 s1 s2 Ma Mbc | | | | | | | | ]; subst.
  inversion Mbc as [ | | | a b s0 s2 s3 Mb Mc | | | | | | | | ]; subst.
  rewrite (matched_seq Ma Mbc), (matched_seq Mb Mc), app_assoc.
  exists (matched st s1 ++ matched s1 s2), (matched s2 st1).
  split; [reflexivity|]. split.
  - apply Forall_app. split.
    + apply (Match_text Ma). exact digit_or_comma_digits.
    + apply (Match_text Mb). exact digit_or_comma_group.
  - apply optional_cents, Mc.
Qed.

Lemma grouped_decimal_shape (st st1 : mstate) :
  Match icase
    (seqs [times 1 3 d; plus (Seq (Lit (chr ",")) (times 3 3 d));
           Lit (chr "."); times 2 2 d]) st st1 ->
  money_shape (matched st st1).
Proof.
  cbn [seqs]. intro M.
  inversion M as [ | | | a b s0 s1 s2 Ma Mr | | | | | | | | ]; subst.
  inversion Mr as [ | | | a b s0 s2 s3 Mb Mr' | | | | | | | | ]; subst.
  inversion Mr' as [ | | | a b s0 s3 s4 Mc Md | | | | | | | | ]; subst.
  rewrite (matched_seq Ma Mr), (matched_seq Mb Mr'), (matched_seq Mc Md).
  rewrite app_assoc.
  exists (matched st s1 ++ matched s1 s2), (matched s2 s3 ++ matched s3 st1).
  split; [reflexivity|]. split.
  - apply Forall_app. split.
    + apply (Match_text Ma). exact digit_or_comma_digits.
    + apply (Match_text Mb). exact digit_or_comma_group.
  - right. destruct (two_digits Md) as (d1 & d2 & -> & D1 & D2).
    assert (matched s2 s3 = [chr "."]).
    { inversion Mc as [ | p s c t E L | | | | | | | | | | ]; subst.
      apply lit_icase_symbol in L; [|reflexivity|reflexivity]. subst c.
      apply matched_span. reflexivity. }
    rewrite H. exists d1, d2. auto.
Qed.

Lemma long_integer_shape (st st1 : mstate) :
  Match icase (at_least 4 d) st st1 -> money_shape (matched st st1).
Proof.
  intro M. exists (matched st st1), []. rewrite app_nil_r.
  split; [reflexivity|]. split; [|now left].
  apply (Match_text M). exact digit_or_comma_digits.
Qed.

Lemma money_shape_nil : money_shape [].
Proof. exists [], []. repeat split; auto. Qed.

Lemma amount_patterns_money :
  Forall (groups_sat icase money_shape) amount_patterns.
Proof.
  repeat constructor; cbn -[grouped_number]; repeat split; auto;
    intros st st1 M;
    first [ apply grouped_number_shape, M
          | apply grouped_decimal_shape, M
          | apply long_integer_shape, M ].
Qed.

Lemma bank_patterns_money :
  Forall (fun np => groups_sat icase money_shape (snd np)) bank_patterns.
Proof.
  repeat constructor; cbn -[grouped_number]; repeat split; auto;
    intros st st1 M; apply grouped_number_shape, M.
Qed.

(** *** A resolved amount has at most two decimals *)

Lemma norm_scale (m : N) (sc : nat) : scale (norm m sc) <= sc.
Proof.
  revert m. induction sc as [|sc IH]; intro m; simpl; [lia|].
  destruct (m mod 10 =? 0)%N; [specialize (IH (m / 10)%N); lia|simpl; lia].
Qed.

Lemma span_digits_all (ds : text) : all_digits ds -> span_digits ds = (ds, []).
Proof.
  induction 1 as [|c ds Hc _ IH]; [reflexivity|].
  cbn [span_digits]. now rewrite Hc, IH.
Qed.

Lemma remove_comma_digits (body : text) :
  Forall digit_or_comma body -> all_digits (remove (chr ",") body).
Proof.
  unfold remove, all_digits. induction 1 as [|c body Hc _ IH]; simpl;
    [constructor|].
  destruct Hc as [Hc| ->].
  - destruct (digit_facts c Hc) as (_ & E & _). rewrite E. simpl.
    constructor; assumption.
  - change (ceq (chr ",") (chr ",")) with true. simpl. exact IH.
Qed.

(** Cleaning a captured amount succeeds or gives nothing, and a value it
    gives has at most two decimals. *)
Lemma _clean_amount_money (g : text) :
  money_shape g ->
  exists v, _clean_amount g = Ret v /\
            forall a, v = Some a -> scale a <= 2.
Proof.
  intros (body & tail & -> & B & T).
  assert (Kb : Forall (fun c => is_digit c = true \/ c = chr "," \/ c = chr ".")
                 (body ++ tail)).
  { apply Forall_app. split.
    - eapply Forall_impl; [|exact B]. intros c [H|H]; auto.
    - destruct T as [->|(d1 & d2 & -> & D1 & D2)]; [constructor|].
      constructor; [auto|]. constructor; [auto|]. constructor; [auto|].
      constructor. }
  unfold _clean_amount.
  rewrite existsb_none.
  2:{ eapply Forall_impl; [|exact Kb]. intros c [H|[->| ->]];
        [apply (digit_facts c H)|reflexivity|reflexivity]. }
  cbn [bind].
  rewrite filter_all.
  2:{ eapply Forall_impl; [|exact Kb]. intros c [H|[->| ->]];
        [|reflexivity|reflexivity].
      unfold set_match, set_in, item_in. simpl. now rewrite H. }
  pose proof (remove_comma_digits B) as D.
  assert (R : remove (chr ",") (body ++ tail) = remove (chr ",") body ++ tail).
  { unfold remove. rewrite filter_app. f_equal.
    destruct T as [->|(d1 & d2 & -> & D1 & D2)]; [reflexivity|].
    cbn [filter]. change (ceq (chr ".") (chr ",")) with false.
    destruct (digit_facts d1 D1) as (_ & -> & _).
    destruct (digit_facts d2 D2) as (_ & -> & _). reflexivity. }
  rewrite R. clear R.
  set (ds := remove (chr ",") body) in *.
  assert (C0 : count (chr ".") ds = 0).
  { unfold count. rewrite filter_none; [reflexivity|].
    eapply Forall_impl; [|exact D]. intros c H. apply (digit_facts c H). }
  destruct T as [->|(d1 & d2 & -> & D1 & D2)].
  - rewrite app_nil_r. rewrite C0. cbv iota beta.
    change (1 <? 0) with false. cbv iota.
    eexists. split; [reflexivity|].
    unfold float_of. rewrite (span_digits_all D).
    destruct ds; intros a H; [discriminate|].
    inversion H. simpl. lia.
  - assert (C1 : count (chr ".") (ds ++ [chr "."; d1; d2]) = 1).
    { unfold count in *. rewrite filter_app, length_app, C0.
      cbn [filter]. change (ceq (chr ".") (chr ".")) with true.
      destruct (digit_facts d1 D1) as (_ & _ & ->).
      destruct (digit_facts d2 D2) as (_ & _ & ->). reflexivity. }
    rewrite C1. cbv iota beta. change (1 <? 1) with false. cbv iota.
    eexists. split; [reflexivity|].
    unfold float_of.
    change (ds ++ [chr "."; d1; d2]) with (ds ++ chr "." :: [d1; d2]).
    rewrite (span_digits_dot [d1; d2] D).
    destruct (_ && _); intros a H; [|discriminate].
    inversion H. apply (norm_scale _ 2).
Qed.

Lemma clean_all_scale (ms : list text) (vs : list (text * decimal)) :
  Forall money_shape ms -> clean_all ms = Ret vs ->
  Forall (fun mv => scale (snd mv) <= 2) vs.
Proof.
  intro F. revert vs. induction F as [|m ms Hm _ IH]; intros vs H;
    cbn [clean_all] in H.
  - inversion H. constructor.
  - destruct (_clean_amount_money Hm) as (v & E & S). rewrite E in H.
    cbn [bind] in H.
    apply bind_ret_inv in H. destruct H as (more & Hm' & H).
    inversion H; subst vs. specialize (IH _ Hm').
    destruct v as [a|]; [constructor; [simpl; auto|exact IH]|exact IH].
Qed.

Lemma amount_matches_money (l : text) : Forall money_shape (amount_matches l).
Proof.
  apply Forall_forall. intros m H. unfold amount_matches in H.
  apply in_flat_map in H. destruct H as (p & Hp & Hm).
  pose proof amount_patterns_money as G. rewrite Forall_forall in G.
  eapply findall_from_sat; [apply (G p Hp)|apply money_shape_nil|exact Hm].
Qed.

Lemma line_candidates_scale (pr : nat) (l : text) (i : nat)
  (cs : list candidate) :
  line_candidates pr l i = Ret cs -> Forall (fun c => scale (amount c) <= 2) cs.
Proof.
  unfold line_candidates. intro H.
  apply bind_ret_inv in H. destruct H as (vs & Hv & H). inversion H.
  apply (clean_all_scale (amount_matches_money l)) in Hv.
  apply Forall_map. exact Hv.
Qed.

Lemma strategy1_scale (lines : list text) :
  forall k cs, strategy1 k lines = Ret cs ->
               Forall (fun c => scale (amount c) <= 2) cs.
Proof.
  induction lines as [|l tl IH]; intros k cs H; cbn [strategy1] in H.
  - inversion H. constructor.
  - cbv zeta in H.
    destruct (any_in total_keywords (lower_text l) &&
              negb (any_in ignore_keywords (lower_text l))); [|eauto].
    apply bind_ret_inv in H. destruct H as (same & Hs & H).
    apply bind_ret_inv in H. destruct H as (next & Hn & H).
    apply bind_ret_inv in H. destruct H as (more & Hm & H).
    inversion H; subst cs. repeat (apply Forall_app; split).
    + eapply line_candidates_scale; eauto.
    + destruct tl; [inversion Hn; constructor|].
      eapply line_candidates_scale; eauto.
    + eauto.
Qed.

Lemma strategy2_scale (t : text) (cs : list candidate) :
  strategy2 t = Ret cs -> Forall (fun c => scale (amount c) <= 2) cs.
Proof.
  unfold strategy2. intro H.
  apply bind_ret_inv in H. destruct H as (vs & Hv & H). inversion H.
  apply Forall_map. eapply clean_all_scale; [|exact Hv].
  apply Forall_forall. intros m Hm. apply in_flat_map in Hm.
  destruct Hm as (np & Hnp & Hm).
  destruct (existsb _ _); [|contradiction].
  pose proof bank_patterns_money as G. rewrite Forall_forall in G.
  eapply findall_from_sat; [apply (G np Hnp)|apply money_shape_nil|exact Hm].
Qed.

Lemma all_amounts_scale (lines : list text) :
  forall vs, all_amounts lines = Ret vs -> Forall (fun v => scale v <= 2) vs.
Proof.
  induction lines as [|l tl IH]; intros vs H; cbn [all_amounts] in H.
  - inversion H. constructor.
  - destruct (any_in ignore_keywords (lower_text l)); [auto|].
    apply bind_ret_inv in H. destruct H as (ws & Hw & H).
    apply bind_ret_inv in H. destruct H as (more & Hm & H).
    inversion H; subst vs. apply Forall_app. split; [|auto].
    apply (clean_all_scale (amount_matches_money l)) in Hw.
    apply Forall_forall. intros v Hv. apply filter_In in Hv.
    destruct Hv as [Hv _]. apply in_map_iff in Hv.
    destruct Hv as (mv & <- & Hmv).
    rewrite Forall_forall in Hw. apply (Hw mv Hmv).
Qed.

Lemma strategy3_scale (lines : list text) (cs : list candidate) :
  strategy3 lines = Ret cs -> Forall (fun c => scale (amount c) <= 2) cs.
Proof.
  unfold strategy3. intro H.
  apply bind_ret_inv in H. destruct H as (vs & Hv & H). inversion H.
  destruct vs as [|x xs]; constructor; [|constructor].
  cbn [amount]. apply all_amounts_scale in Hv.
  rewrite Forall_forall in Hv. apply Hv, max_of_in.
Qed.

Lemma candidates_scale (t : text) (cs : list candidate) :
  candidates_of t = Ret cs -> Forall (fun c => scale (amount c) <= 2) cs.
Proof.
  unfold candidates_of. intro H.
  apply bind_ret_inv in H. destruct H as (c1 & H1 & H).
  apply bind_ret_inv in H. destruct H as (c2 & H2 & H).
  destruct c1 as [|x c1].
  - destruct c2 as [|y c2].
    + eapply strategy3_scale; eauto.
    + inversion H; subst cs. eapply strategy2_scale; eauto.
  - inversion H2; subst c2. inversion H; subst cs.
    eapply strategy1_scale; eauto.
Qed.

(** X5: an amount that is resolved has at most two decimals. *)
Theorem resolved_amount_two_decimals (t : text) (a : decimal) :
  extract_total_amount t = Ret (Some a) -> scale a <= 2.
Proof.
  unfold extract_total_amount. intro H.
  apply bind_ret_inv in H. destruct H as (cs & Hc & H).
  pose proof (sort_by_priority_head cs) as S.
  destruct (sort_by_priority cs) as [|c r]; [discriminate|].
  inversion H; subst a.
  destruct S as (b & af & -> & _).
  apply candidates_scale in Hc. apply Forall_app in Hc.
  destruct Hc as [_ Hc]. now inversion Hc.
Qed.

Lemma resolved_amount_two_decimals_witness :
  exists a, extract_total_amount (str "Total Rs 1,234.56") = Ret (Some a) /\
            scale a <= 2.
Proof.
  eexists. split; [vm_compute; reflexivity|].
  apply (@resolved_amount_two_decimals (str "Total Rs 1,234.56")).
  vm_compute. reflexivity.
Defined.

(** *** Text recognition *)

(** *** Stripping *)

Lemma lstrip_head (s : text) (c : char) (r : text) :
  lstrip s = c :: r -> is_space c = false.
Proof.
  induction s as [|x s IH]; simpl; [discriminate|].
  destruct (is_space x) eqn:E; [exact IH|].
  intro H. inversion H; subst. exact E.
Qed.

Lemma lstrip_fixed (s : text) :
  match s with [] => True | c :: _ => is_space c = false end ->
  lstrip s = s.
Proof. destruct s as [|c s]; simpl; [reflexivity|]. now intros ->. Qed.

Lemma lstrip_split (s : text) : exists ws, s = ws ++ lstrip s /\ blank ws.
Proof.
  induction s as [|c s (ws & E & B)]; simpl.
  - exists []. split; [reflexivity|constructor].
  - destruct (is_space c) eqn:S.
    + exists (c :: ws). split; [simpl; now rewrite <- E|constructor; auto].
    + exists []. split; [reflexivity|constructor].
Qed.

Lemma lstrip_idem (s : text) : lstrip (lstrip s) = lstrip s.
Proof.
  apply lstrip_fixed. destruct (lstrip s) eqn:E; [exact I|].
  eapply lstrip_head; eauto.
Qed.

(** [strip] leaves a stripped text as it is. *)
Lemma strip_idem (s : text) : strip (strip s) = strip s.
Proof.
  unfold strip.
  set (a := lstrip s). set (b := lstrip (rev a)).
  assert (Hb : lstrip b = b) by apply lstrip_idem.
  assert (Hr : lstrip (rev b) = rev b).
  { apply lstrip_fixed.
    destruct (lstrip_split (rev a)) as (ws & E & _). fold b in E.
    apply (f_equal (@rev char)) in E.
    rewrite rev_involutive, rev_app_distr in E.
    destruct (rev b) as [|c r] eqn:R; [exact I|].
    simpl in E. unfold a in E. eapply lstrip_head; eauto. }
  rewrite Hr, rev_involutive, Hb. reflexivity.
Qed.

Lemma strip_nil : strip [] = [].
Proof. reflexivity. Qed.

(** *** The best text *)

Lemma best_text_of_none (f : text -> option text) (cfgs : list text) :
  forall best n,
    (exists c, In c cfgs /\ f c = None) -> best_text_of f cfgs best n = None.
Proof.
  induction cfgs as [|c cfgs IH]; intros best n (x & Hx & E); [destruct Hx|].
  cbn [best_text_of]. destruct Hx as [->|Hx].
  - now rewrite E.
  - destruct (f c); [|reflexivity]. cbv zeta.
    destruct (_ <? _); apply IH; eauto.
Qed.

Lemma best_text_of_some (f : text -> option text) (cfgs : list text) :
  forall best r,
    strip best = best ->
    best_text_of f cfgs best (length best) = Some r ->
    strip r = r /\
    length best <= length r /\
    (forall c t, In c cfgs -> f c = Some t -> length (strip t) <= length r) /\
    (r = best \/ exists c t, In c cfgs /\ f c = Some t /\ r = strip t).
Proof.
  induction cfgs as [|c cfgs IH]; intros best r S H; cbn [best_text_of] in H.
  - inversion H; subst. repeat split; auto. intros c t [].
  - destruct (f c) as [t|] eqn:E; [|discriminate]. cbv zeta in H.
    destruct (length best <? length (strip t)) eqn:L.
    + apply Nat.ltb_lt in L.
      apply IH in H; [|apply strip_idem].
      destruct H as (S' & Len & Max & Src). repeat split; auto; try lia.
      * intros c' t' [<-|Hc] E'; [|eauto].
        rewrite E in E'. inversion E'; subst. exact Len.
      * right. destruct Src as [->|(c' & t' & Hc & E' & ->)].
        -- exists c, t. repeat split; [now left|assumption].
        -- exists c', t'. repeat split; [now right|assumption].
    + apply Nat.ltb_ge in L.
      apply IH in H; [|exact S].
      destruct H as (S' & Len & Max & Src). repeat split; auto.
      * intros c' t' [<-|Hc] E'; [|eauto].
        rewrite E in E'. inversion E'; subst. lia.
      * destruct Src as [->|(c' & t' & Hc & E' & ->)]; [now left|].
        right. exists c', t'. repeat split; [now right|assumption].
Qed.

(** X6: the text that [extract_text] returns is stripped; it is empty when
    preprocessing or one of the three recognitions raises; otherwise no
    recognised text is longer, once stripped, and it is one of them,
    stripped, unless it is empty. *)
Theorem extract_text_best (preprocessed : bool)
  (image_to_string : text -> option text) :
  let r := extract_text preprocessed image_to_string in
  strip r = r /\
  (preprocessed = false \/
   (exists config, In config configs /\ image_to_string config = None) ->
   r = []) /\
  (preprocessed = true ->
   (forall config, In config configs -> image_to_string config <> None) ->
   (forall config t, In config configs -> image_to_string config = Some t ->
                     length (strip t) <= length r) /\
   (r = [] \/
    exists config t, In config configs /\
                     image_to_string config = Some t /\ r = strip t)).
Proof.
  unfold extract_text. cbv zeta. destruct preprocessed.
  - split; [|split].
    + destruct (best_text_of image_to_string configs [] 0) as [r|] eqn:B;
        [|reflexivity].
      apply (@best_text_of_some image_to_string configs [] r strip_nil) in B.
      tauto.
    + intros [H|H]; [discriminate|].
      now rewrite (@best_text_of_none image_to_string configs [] 0 H).
    + intros _ H.
      destruct (best_text_of image_to_string configs [] 0) as [r|] eqn:B.
      * apply (@best_text_of_some image_to_string configs [] r strip_nil) in B.
        destruct B as (_ & _ & Max & Src). split; [exact Max|].
        destruct Src as [->|Src]; [now left|now right].
      * exfalso. revert B. generalize 0. generalize (@nil char).
        induction configs as [|c cfgs IH]; intros best n; cbn [best_text_of];
          [discriminate|].
        destruct (image_to_string c) eqn:E;
          [|elim (H c (or_introl eq_refl) E)].
        cbv zeta. destruct (_ <? _); apply IH; intros; apply H; now right.
  - split; [reflexivity|]. split; [reflexivity|]. discriminate.
Qed.

(** Three recognitions, the second one the longest. *)
Lemma extract_text_best_witness :
  let image_to_string := fun config : text =>
    if text_eqb config (str "--oem 3 --psm 3")
    then Some (str "  Total Rs 250  ")
    else Some (str " Total ") in
  extract_text true image_to_string = str "Total Rs 250" /\
  strip (extract_text true image_to_string)
  = extract_text true image_to_string /\
  (forall config t, In config configs -> image_to_string config = Some t ->
                    length (strip t)
                    <= length (extract_text true image_to_string)).
Proof.
  intro image_to_string.
  split; [vm_compute; reflexivity|].
  destruct (extract_text_best true image_to_string) as (S & _ & B).
  split; [exact S|].
  apply B; [reflexivity|].
  intros config _. unfold image_to_string.
  destruct (text_eqb config (str "--oem 3 --psm 3")); discriminate.
Defined.

(** *** Descriptions *)

Lemma single_lineb_spec (s : text) : single_lineb s = true -> single_line s.
Proof.
  unfold single_lineb, single_line. intro H.
  apply andb_true_iff in H. destruct H as [H1 H2]. split.
  - apply Forall_forall. intros c Hc Sc.
    rewrite forallb_forall in H1. specialize (H1 c Hc).
    rewrite Sc in H1. simpl in H1. now apply N.eqb_eq in H1.
  - destruct s; [exact I|]. now apply negb_true_iff in H2.
Qed.

Lemma find_first (A : Type) (f : A -> bool) (before after : list A) (m : A) :
  f m = true -> (forall x, In x before -> f x = false) ->
  find f (before ++ m :: after) = Some m.
Proof.
  intros Hm. induction before as [|x before IH]; intro H; simpl.
  - now rewrite Hm.
  - rewrite (H x (or_introl eq_refl)). apply IH. intros; apply H; now right.
Qed.

(** X7: a known merchant named in the text is the description, whatever else
    the text holds; of several, the first of the list wins, wherever they
    stand in the text. *)
Theorem known_merchant_precedence (t : text) :
  (forall before m after,
      known_merchants = before ++ m :: after ->
      contains (lower_text m) (lower_text t) = true ->
      (forall x, In x before -> contains (lower_text x) (lower_text t) = false) ->
      extract_description t = m) /\
  (contains (str "zomato") (lower_text t) = true ->
   extract_description t = str "Zomato").
Proof.
  assert (G : forall before m after,
      known_merchants = before ++ m :: after ->
      contains (lower_text m) (lower_text t) = true ->
      (forall x, In x before -> contains (lower_text x) (lower_text t) = false) ->
      extract_description t = m).
  { intros before m after E Hm Hb. unfold extract_description, known_merchant.
    rewrite E.
    rewrite (find_first (fun merchant =>
                           contains (lower_text merchant) (lower_text t))
               before after m Hm Hb).
    reflexivity. }
  split; [exact G|]. intro H.
  apply (G [] (str "Zomato") (tl known_merchants)); [reflexivity|exact H|].
  intros x [].
Qed.

Lemma known_merchant_precedence_witness :
  contains (str "zomato")
    (lower_text (str "Paid to XYZ Store, order via ZOMATO")) = true /\
  extract_description (str "Paid to XYZ Store, order via ZOMATO")
    = str "Zomato".
Proof.
  assert (H : contains (str "zomato")
                (lower_text (str "Paid to XYZ Store, order via ZOMATO")) = true)
    by (vm_compute; reflexivity).
  split; [exact H|].
  exact (proj2 (known_merchant_precedence
                  (str "Paid to XYZ Store, order via ZOMATO")) H).
Defined.

(** The Kelvin sign is lower-cased to "k": in "Zepto \u212aFC" the merchant
    "KFC" is found, and it stands before "Zepto" in the list. *)
Lemma kelvin_sign_merchant :
  extract_description (str "Zepto " ++ 8490%N :: str "FC") = str "KFC".
Proof. vm_compute. reflexivity. Qed.

(** *** The description is one line *)

Lemma lstrip_strip (s : text) : lstrip (strip s) = strip s.
Proof.
  unfold strip. set (a := lstrip s). set (b := lstrip (rev a)).
  apply lstrip_fixed.
  destruct (lstrip_split (rev a)) as (ws & E & _). fold b in E.
  apply (f_equal (@rev char)) in E.
  rewrite rev_involutive, rev_app_distr in E.
  destruct (rev b) as [|c r] eqn:R; [exact I|].
  simpl in E. unfold a in E. eapply lstrip_head; eauto.
Qed.

Lemma strip_head (s : text) :
  match strip s with [] => True | c :: _ => is_space c = false end.
Proof.
  pose proof (lstrip_strip s) as H.
  destruct (strip s) as [|c r] eqn:E; [exact I|].
  eapply lstrip_head; eauto.
Qed.

Lemma squeeze_ws_aux_spaces (s : text) (b : bool) :
  Forall (fun c => is_space c = true -> c = sp) (squeeze_ws_aux b s).
Proof.
  revert b. induction s as [|c s IH]; intro b; simpl; [constructor|].
  destruct (is_space c) eqn:E.
  - destruct b; [apply IH|]. constructor; [reflexivity|apply IH].
  - constructor; [congruence|apply IH].
Qed.

Lemma squeeze_ws_single_line (s : text) :
  match s with [] => True | c :: _ => is_space c = false end ->
  single_line (squeeze_ws s).
Proof.
  intro H. split; [apply squeeze_ws_aux_spaces|].
  destruct s as [|c s]; [exact I|]. unfold squeeze_ws. simpl. now rewrite H.
Qed.

Lemma Forall_first (A : Type) (P : A -> Prop) (n : nat) (l : list A) :
  Forall P l -> Forall P (firstn n l).
Proof.
  revert l. induction n as [|n IH]; intros l H; [constructor|].
  destruct H; cbn [firstn]; constructor; auto.
Qed.

Lemma single_line_firstn (n : nat) (s : text) :
  single_line s -> single_line (firstn n s).
Proof.
  intros [H1 H2]. split; [apply Forall_first, H1|].
  destruct n; [exact I|]. destruct s; [exact I|]. exact H2.
Qed.

Lemma labelled_merchant_single_line (patterns : list regex) (t m : text) :
  labelled_merchant patterns t = Some m -> single_line m.
Proof.
  induction patterns as [|p ps IH]; simpl; [discriminate|].
  destruct (re_search icase_multiline p t) as [mt|]; [|exact IH].
  destruct (_ && _); [|exact IH].
  intro H. inversion H. apply squeeze_ws_single_line, strip_head.
Qed.

Lemma first_clean_line_single_line (lines : list text) (c : text) :
  Forall (fun l => match l with [] => True | x :: _ => is_space x = false end)
         lines ->
  first_clean_line lines = Some c -> single_line c.
Proof.
  induction 1 as [|l ls Hl _ IH]; cbn [first_clean_line]; [discriminate|].
  cbv zeta.
  destruct (_ || _); [exact IH|].
  destruct (_ && _); [exact IH|].
  destruct (any_in ignore_keywords (lower_text l)); [exact IH|].
  destruct (4 <? length (squeeze_ws l)); [|exact IH].
  intro H. inversion H.
  apply single_line_firstn, squeeze_ws_single_line, Hl.
Qed.

(** X8: the description holds no line break or tab: its white space is the
    plain space, and it does not begin with one. *)
Theorem description_single_line (t : text) :
  single_line (extract_description t).
Proof.
  unfold extract_description.
  destruct (known_merchant t) as [m|] eqn:K.
  { unfold known_merchant in K. apply find_some in K. destruct K as [K _].
    assert (F : forallb single_lineb known_merchants = true)
      by (vm_compute; reflexivity).
    rewrite forallb_forall in F. apply single_lineb_spec, F, K. }
  destruct (labelled_merchant merchant_patterns t) as [m|] eqn:L.
  { eapply labelled_merchant_single_line; eauto. }
  destruct (first_clean_line _) as [c|] eqn:F.
  { eapply first_clean_line_single_line; [|exact F].
    apply Forall_first. apply Forall_map.
    apply Forall_forall. intros l _. apply strip_head. }
  destruct (type_label t) as [d|] eqn:T.
  { unfold type_label in T.
    destruct (find _ transaction_types) as [kv|] eqn:H; [|discriminate].
    inversion T; subst d. apply find_some in H. destruct H as [H _].
    assert (F' : forallb (fun kv => single_lineb (snd kv)) transaction_types
                 = true) by (vm_compute; reflexivity).
    rewrite forallb_forall in F'. apply single_lineb_spec, (F' kv H). }
  apply single_lineb_spec. vm_compute. reflexivity.
Qed.

(** *** Dates written day first, and ISO dates *)

Lemma text_eqb_eq (a b : text) : text_eqb a b = true -> a = b.
Proof.
  revert b. induction a as [|x a IH]; intros [|y b]; simpl; try discriminate.
  - reflexivity.
  - intro H. apply andb_true_iff in H. destruct H as [H1 H2].
    apply N.eqb_eq in H1. subst. f_equal. auto.
Qed.

Lemma days_in_month_le (y m : nat) : days_in_month y m <= 31.
Proof.
  unfold days_in_month.
  do 13 (destruct m as [|m]; [try lia; destruct (is_leap y); lia|]). lia.
Qed.

Lemma valid_in_calendar (dt : datetime) (y0 n : nat) :
  valid_date dt = true -> y0 <= year dt < y0 + n -> In dt (calendar y0 n).
Proof.
  unfold valid_date. intros V Y.
  repeat (apply andb_true_iff in V; destruct V as [V ?]).
  repeat match goal with
         | H : (_ <=? _) = true |- _ => apply Nat.leb_le in H
         end.
  pose proof (days_in_month_le (year dt) (month dt)).
  destruct dt as [y m d]. simpl in *.
  unfold calendar. apply in_flat_map. exists y. split; [apply in_seq; lia|].
  apply in_flat_map. exists m. split; [apply in_seq; lia|].
  apply in_map_iff. exists d. split; [reflexivity|apply in_seq; lia].
Qed.

Lemma extract_date_with_found (patterns : list regex) (now : datetime)
  (t : text) :
  extract_date_with patterns now t =
  strftime (match found_date patterns t with Some dt => dt | None => now end).
Proof.
  induction patterns as [|p ps IH]; simpl; [reflexivity|].
  destruct (re_search icase p t) as [m|]; [|exact IH].
  destruct (parse_date (group0 m)) as [dt|]; [reflexivity|exact IH].
Qed.

Lemma same_date_eq (a b : datetime) : same_date a b = true -> a = b.
Proof.
  unfold same_date. intro H.
  apply andb_true_iff in H. destruct H as [H H3].
  apply andb_true_iff in H. destruct H as [H1 H2].
  apply Nat.eqb_eq in H1, H2, H3.
  destruct a, b; simpl in *; congruence.
Qed.

Lemma finds_extract (now : datetime) (t : text) (dt : datetime) :
  finds t dt = true -> extract_date now t = strftime dt.
Proof.
  unfold finds, extract_date. intro H. rewrite extract_date_with_found.
  destruct (found_date date_patterns t) as [r|]; [|discriminate].
  apply same_date_eq in H. now subst.
Qed.

Lemma day_first_read_years : forallb day_first_read (calendar 2020 6) = true.
Proof. vm_cast_no_check (eq_refl true). Qed.

Lemma iso_read_years : forallb iso_read (calendar 2020 6) = true.
Proof. vm_cast_no_check (eq_refl true). Qed.

(** X9: a date of the years 2020 to 2025 written day first with four year
    digits, DD/MM/YYYY or DD-MM-YYYY, is resolved to that date, whatever the
    current date. *)
Theorem day_first_date_resolved (now dt : datetime) :
  valid_date dt = true -> 2020 <= year dt <= 2025 ->
  extract_date now (dmy (chr "/") dt) = strftime dt /\
  extract_date now (dmy (chr "-") dt) = strftime dt.
Proof.
  intros V Y.
  assert (I : In dt (calendar 2020 6)) by (apply valid_in_calendar; [exact V|lia]).
  pose proof (proj1 (forallb_forall _ _) day_first_read_years dt I) as H.
  unfold day_first_read in H. rewrite V in H. cbn [negb orb] in H.
  apply andb_true_iff in H. destruct H as [H1 H2].
  split; apply finds_extract; assumption.
Qed.

Lemma day_first_date_resolved_witness :
  let now := {| year := 2030; month := 1; day := 1 |} in
  let dt := {| year := 2024; month := 3; day := 12 |} in
  valid_date dt = true /\ dmy (chr "/") dt = str "12/03/2024" /\
  strftime dt = str "2024-03-12" /\
  extract_date now (dmy (chr "/") dt) = strftime dt /\
  extract_date now (dmy (chr "-") dt) = strftime dt.
Proof.
  intros now dt. split; [reflexivity|]. split; [reflexivity|].
  split; [reflexivity|].
  apply (@day_first_date_resolved now dt); [reflexivity|simpl; lia].
Defined.

Lemma valid_read_as_dmy (dt : datetime) :
  valid_date dt = true -> 1 <= year dt mod 100 <= 28 ->
  valid_date (read_as_dmy dt) = true.
Proof.
  unfold valid_date. intros V Y.
  repeat (apply andb_true_iff in V; destruct V as [V ?]).
  repeat match goal with
         | H : (_ <=? _) = true |- _ => apply Nat.leb_le in H
         end.
  pose proof (days_in_month_le (year dt) (month dt)).
  destruct dt as [y m d]. cbn [year month day read_as_dmy] in *.
  assert (D : 28 <= days_in_month (2000 + d) m).
  { unfold days_in_month.
    do 13 (destruct m as [|m]; [try lia; destruct (is_leap _); lia|]). lia. }
  pose proof (Nat.mod_upper_bound y 100).
  repeat (apply andb_true_iff; split); apply Nat.leb_le;
    cbn [year month day]; try lia.
  apply Nat.le_trans with 2031; [lia|].
  apply Nat.leb_le. vm_compute. reflexivity.
Qed.

(** X10: the resolver does not read back its own output.  In the ISO form
    YYYY-MM-DD of a date of the years 2020 to 2025 the first date pattern
    matches the tail YY-MM-DD, which parses day first with a two-digit year
    whenever that is a calendar date: "2024-03-12" resolves to
    "2012-03-24".  Otherwise the ISO date is resolved to itself. *)
Theorem iso_date_reread (now dt : datetime) :
  valid_date dt = true -> 2020 <= year dt <= 2025 ->
  extract_date now (strftime dt)
  = strftime (if valid_date (read_as_dmy dt) then read_as_dmy dt else dt) /\
  (1 <= year dt mod 100 <= 28 ->
   extract_date now (strftime dt) = strftime (read_as_dmy dt)).
Proof.
  intros V Y.
  assert (I : In dt (calendar 2020 6)) by (apply valid_in_calendar; [exact V|lia]).
  pose proof (proj1 (forallb_forall _ _) iso_read_years dt I) as H.
  unfold iso_read in H. rewrite V in H. cbn [negb orb] in H.
  apply (finds_extract now) in H. split; [exact H|].
  intro R. rewrite H, (valid_read_as_dmy dt V R). reflexivity.
Qed.

Lemma iso_date_reread_witness :
  let now := {| year := 2030; month := 1; day := 1 |} in
  let dt := {| year := 2024; month := 3; day := 12 |} in
  valid_date dt = true /\ strftime dt = str "2024-03-12" /\
  strftime (read_as_dmy dt) = str "2012-03-24" /\
  extract_date now (strftime dt) = strftime (read_as_dmy dt).
Proof.
  intros now dt. split; [reflexivity|]. split; [reflexivity|].
  split; [reflexivity|].
  apply (@iso_date_reread now dt); [reflexivity|simpl; lia|simpl].
  change (2024 mod 100) with 24. lia.
Defined.

(** *** One text for one transaction *)

(** X11: a transaction is built from one recognised text.  Its amount is the
    amount resolved from the very text that gives its date, description,
    type and raw text; this text is the first recognition, or the raw
    recognition when the first one holds no amount.  When the first
    recognition holds an amount the raw recognition has no influence. *)
Theorem transaction_from_one_text (opened : bool) (first_pass : text)
  (raw_pass : option text) (now : datetime) :
  (forall txs tx,
      extract_transactions opened first_pass raw_pass now = Ret txs ->
      In tx txs ->
      exists t,
        (t = first_pass \/
         raw_pass = Some t /\
         exists a, extract_total_amount first_pass = Ret a /\
                   no_amount a = true) /\
        extract_total_amount t = Ret (Some (tx_amount tx)) /\
        tx_date tx = extract_date now t /\
        tx_description tx = extract_description t /\
        tx_type tx = detect_transaction_type t (extract_description t) /\
        tx_raw_text tx = firstn 500 t /\
        scale (tx_amount tx) <= 2) /\
  (forall v,
      extract_total_amount first_pass = Ret (Some v) -> is_zero v = false ->
      extract_transactions opened first_pass raw_pass now
      = extract_transactions opened first_pass None now).
Proof.
  split.
  - intros txs tx E I. unfold extract_transactions in E.
    destruct opened; cbn [negb] in E; [|inversion E; subst; destruct I].
    apply bind_ret_inv in E. destruct E as ([t a] & P & E).
    destruct (is_empty t || (length (strip t) <? 5));
      [inversion E; subst; destruct I|].
    destruct a as [v|]; [|inversion E; subst; destruct I].
    destruct (is_zero v) eqn:Z; [inversion E; subst; destruct I|].
    inversion E; subst txs. destruct I as [<-|[]]. cbn.
    assert (A : (t = first_pass \/
                 raw_pass = Some t /\
                 exists a, extract_total_amount first_pass = Ret a /\
                           no_amount a = true) /\
                extract_total_amount t = Ret (Some v)).
    { unfold two_passes in P. apply bind_ret_inv in P.
      destruct P as (a & Ea & P).
      destruct (no_amount a) eqn:NA.
      - destruct raw_pass as [text_raw|].
        + destruct (extract_total_amount text_raw) as [a'|e] eqn:Er.
          * inversion P; subst. split; [right; eauto|exact Er].
          * inversion P; subst. cbn in NA. congruence.
        + inversion P; subst. cbn in NA. congruence.
      - inversion P; subst. split; [now left|exact Ea]. }
    destruct A as [A1 A2]. exists t.
    repeat split; try assumption.
    eapply resolved_amount_two_decimals; eauto.
  - intros v E Z. unfold extract_transactions, two_passes. rewrite E.
    cbn [bind no_amount]. rewrite Z. reflexivity.
Qed.

Lemma transaction_from_one_text_witness :
  let first_pass := str "Paid at shop" in
  let raw_pass := Some (str "Total Rs 250") in
  let now := {| year := 2024; month := 3; day := 12 |} in
  exists tx,
    extract_transactions true first_pass raw_pass now = Ret [tx] /\
    tx_amount tx = of_N 250 /\
    exists t,
      (t = first_pass \/
       raw_pass = Some t /\
       exists a, extract_total_amount first_pass = Ret a /\
                 no_amount a = true) /\
      extract_total_amount t = Ret (Some (tx_amount tx)) /\
      tx_date tx = extract_date now t /\
      tx_description tx = extract_description t /\
      tx_type tx = detect_transaction_type t (extract_description t) /\
      tx_raw_text tx = firstn 500 t /\
      scale (tx_amount tx) <= 2.
Proof.
  intros first_pass raw_pass now. eexists.
  split; [vm_compute; reflexivity|]. split; [vm_compute; reflexivity|].
  eapply (proj1 (transaction_from_one_text true first_pass raw_pass now));
    [vm_compute; reflexivity|left; reflexivity].
Defined.

(** *** The categoriser *)

(** ** The categoriser of [backend/app.py] *)

Lemma text_eqb_refl (a : text) : text_eqb a a = true.
Proof.
  induction a as [|x a IH]; simpl; [reflexivity|].
  rewrite IH. unfold ceq. now rewrite N.eqb_refl.
Qed.

Lemma recategorize_in (keywords : list (text * text)) (desc_lower : text) :
  App.recategorize keywords desc_lower = str "Uncategorized" \/
  In (App.recategorize keywords desc_lower) (map snd keywords).
Proof.
  induction keywords as [|[k c] r IH]; simpl; [now left|].
  destruct (contains k desc_lower); [right; now left|].
  destruct IH; [now left|right; now right].
Qed.

(** X12: a transaction of type "expense" is never given the category
    "Income": a prediction "Income" is replaced by the category of the first
    expense keyword, in the order of the table, that occurs in the lowered
    description, and by "Uncategorized" when none occurs.  For every other
    type, and for every other prediction, the predicted category is kept;
    without a model, or when the prediction raises, the category is
    "Uncategorized". *)
Theorem expense_never_income (ml_model : option (text -> option text))
  (description transaction_type : text) :
  (transaction_type = str "expense" ->
   App.categorize_transaction ml_model description transaction_type
   <> str "Income") /\
  (forall predict before keyword cat after,
      ml_model = Some predict ->
      predict description = Some (str "Income") ->
      transaction_type = str "expense" ->
      App.expense_keywords = before ++ (keyword, cat) :: after ->
      contains keyword (lower_text description) = true ->
      (forall k c, In (k, c) before ->
                   contains k (lower_text description) = false) ->
      App.categorize_transaction ml_model description transaction_type = cat) /\
  (forall predict category,
      ml_model = Some predict -> predict description = Some category ->
      category <> str "Income" \/ transaction_type <> str "expense" ->
      App.categorize_transaction ml_model description transaction_type
      = category) /\
  (ml_model = None \/
   (exists predict, ml_model = Some predict /\ predict description = None) ->
   App.categorize_transaction ml_model description transaction_type
   = str "Uncategorized").
Proof.
  split; [|split; [|split]].
  - intros -> H. unfold App.categorize_transaction in H.
    destruct ml_model as [predict|]; [|discriminate H].
    destruct (predict description) as [category|]; [|discriminate H].
    destruct (text_eqb category (str "Income")) eqn:E.
    + rewrite text_eqb_refl in H. cbn [andb] in H.
      destruct (recategorize_in App.expense_keywords (lower_text description))
        as [U|I].
      * rewrite U in H. discriminate H.
      * rewrite H in I. cbn in I.
        repeat (destruct I as [I|I]; [discriminate I|]). destruct I.
    + cbn [andb] in H. subst category.
      rewrite text_eqb_refl in E. discriminate E.
  - intros predict before keyword cat after -> P -> K C B.
    unfold App.categorize_transaction. rewrite P, !text_eqb_refl. cbn [andb].
    rewrite K. clear K.
    induction before as [|[k c] r IH]; cbn [app App.recategorize].
    + now rewrite C.
    + rewrite (B k c (or_introl eq_refl)). apply IH.
      intros k' c' I. apply (B k' c'). now right.
  - intros predict category -> P D.
    unfold App.categorize_transaction. rewrite P.
    destruct (text_eqb category (str "Income")) eqn:E1; [|reflexivity].
    destruct (text_eqb transaction_type (str "expense")) eqn:E2;
      [|reflexivity].
    apply text_eqb_eq in E1, E2. destruct D as [D|D]; contradiction.
  - intros [->|(predict & -> & P)]; unfold App.categorize_transaction;
      [reflexivity|now rewrite P].
Qed.

(** An "Uber ride to office" predicted "Income": "uber" comes before
    "office" in the table. *)
Lemma expense_never_income_witness :
  let predict := fun _ : text => Some (str "Income") in
  App.categorize_transaction (Some predict) (str "Uber ride to office")
    (str "expense") <> str "Income" /\
  App.categorize_transaction (Some predict) (str "Uber ride to office")
    (str "expense") = str "Transport".
Proof.
  intro predict.
  pose proof (@expense_never_income (Some predict)
                (str "Uber ride to office") (str "expense")) as [H1 [H2 _]].
  split; [exact (H1 eq_refl)|].
  apply (H2 predict
            [(str "food", str "Food"); (str "transport", str "Transport")]
            (str "uber") (str "Transport")
            [(str "ola", str "Transport");
             (str "office", str "Office Supplies");
             (str "software", str "Software");
             (str "internet", str "Utilities");
             (str "electricity", str "Utilities")]);
    try reflexivity.
  intros k c [I|[I|[]]]; inversion I; reflexivity.
Defined.
